(** * A shallow embedding of the websocket package (RFC 6455, server side)

    The development follows the Go sources of the package: the frame
    ([Frame], [PayloadLength], [umask]), the connection ([Send],
    [Receive], [readFrame], [writeFrame], [fragment]), the opener
    ([Open], [handshake], [generateWebsocketAcceptToken]) and the errors.

    Go integers are modelled in [Z] with their wrap-around written out,
    bytes as [Byte.byte], slices of bytes as [list byte], Go strings as
    [string].  A Go function returning [(v, err)] returns a pair whose
    second component is an [option error]; a run-time panic and a loop
    that has not finished within its fuel are outcomes of their own.
    The connection and the buffered reader and writer on it are passed
    along as state. *)

From Stdlib Require Import String Ascii Strings.Byte.
From Stdlib Require Import ZArith NArith List Bool Lia.
Import ListNotations.
Open Scope Z_scope.

(** ** The Go run time *)

(** The run-time panics the package can raise. *)
Inductive panic : Type :=
| IndexOutOfRange        (* s[i] with i >= len(s) *)
| NilDereference         (* *p with p == nil *)
| MakeSliceLenOutOfRange (* make([]T, n) with n < 0 or n too large *).

(** What a call does: it returns, it panics, or (for the two [for] loops
    without a bound) it is still running when the fuel is spent. *)
Inductive outcome (A : Type) : Type :=
| Ret (a : A)
| Panic (p : panic)
| OutOfFuel.

Arguments Ret {A} a.
Arguments Panic {A} p.
Arguments OutOfFuel {A}.

Definition bind {A B : Type} (m : outcome A) (k : A -> outcome B) : outcome B :=
  match m with
  | Ret a => k a
  | Panic p => Panic p
  | OutOfFuel => OutOfFuel
  end.

Notation "x <- m ;; k" := (bind m (fun x => k))
  (at level 61, m at next level, right associativity).
Notation "' p <- m ;; k" := (bind m (fun x => let p := x in k))
  (at level 61, p pattern, m at next level, right associativity).

(** [int] is 64 bits wide. *)
Definition MaxInt : Z := 2 ^ 63 - 1.
Definition MaxUint16 : Z := 65535.
Definition MaxUint64 : Z := 2 ^ 64 - 1.

(** The conversions [uint16(x)], [uint64(x)] and [byte(x)] of an integer. *)
Definition uint16 (x : Z) : Z := x mod 2 ^ 16.
Definition uint64 (x : Z) : Z := x mod 2 ^ 64.

Definition byte_to_Z (b : byte) : Z := Z.of_N (Byte.to_N b).

Definition byte_of_Z (x : Z) : byte :=
  match Byte.of_N (Z.to_N (x mod 256)) with
  | Some b => b
  | None => x00
  end.

(** [a ^ b] on bytes. *)
Definition byte_xor (a b : byte) : byte :=
  byte_of_Z (Z.lxor (byte_to_Z a) (byte_to_Z b)).

(** [len(s)] as an [int]. *)
Definition len {A : Type} (s : list A) : Z := Z.of_nat (length s).

(** [make([]byte, n)]: [n] zero bytes; a length that is negative or does
    not fit an [int] panics.  That the memory may not hold a smaller
    length is not modelled. *)
Definition make_bytes (n : Z) : outcome (list byte) :=
  if (n <? 0) || (MaxInt <? n) then Panic MakeSliceLenOutOfRange
  else Ret (repeat x00 (Z.to_nat n)).

(** [copy(dst, src)]: the bytes copied overwrite the front of [dst]. *)
Definition copy (dst src : list byte) : list byte * Z :=
  let n := Nat.min (length dst) (length src) in
  (firstn n src ++ skipn n dst, Z.of_nat n).

(** ** The errors of the package, and those of the transport *)

(** The errors of the readers and of the connection.  Every error made
    by [errors.New] is a value of its own, so none of them is one of the
    package's five errors below. *)
Inductive io_error : Type :=
| EOF                      (* io.EOF *)
| ConnError (msg : string) (* any other error of the connection *).

Inductive error : Type :=
| BadRequest
| InvalidFrameType
| HijackingNotSupported
| InvalidOpcode
| InvalidLength
| IO (e : io_error).

(** ** The frame *)

Definition Opcode : Type := string.

Definition ContinuationFrame : Opcode := "continuation frame"%string.
Definition TextFrame : Opcode := "text frame"%string.
Definition BinaryFrame : Opcode := "binary frame"%string.
Definition NonControlFrame : Opcode := "non control frame"%string.
Definition ConnectionClose : Opcode := "connection close"%string.
Definition Ping : Opcode := "ping"%string.
Definition Pong : Opcode := "pong"%string.
Definition ControlFrame : Opcode := "control frame"%string.

(** The three length fields are pointers in the source: [None] is [nil].
    The field [Opcode] of the source is [FrameOpcode] here, its type keeps
    the name [Opcode]. *)
Record Frame : Type := {
  FIN : bool;
  RSV1 : bool;
  RSV2 : bool;
  RSV3 : bool;
  FrameOpcode : Opcode;
  Mask : bool;
  payloadLengthInt : option Z;
  payloadLengthInt16 : option Z;
  payloadLengthInt64 : option Z;
  MaskingKey : list byte;
  ExtensionData : list byte;
  ApplicationData : list byte
}.

(** [Frame{}] *)
Definition zeroFrame : Frame := {|
  FIN := false; RSV1 := false; RSV2 := false; RSV3 := false;
  FrameOpcode := ""%string; Mask := false;
  payloadLengthInt := None; payloadLengthInt16 := None;
  payloadLengthInt64 := None;
  MaskingKey := []; ExtensionData := []; ApplicationData := [] |}.

Definition PayloadLength (f : Frame) : Z :=
  match payloadLengthInt f with
  | Some n => uint64 n
  | None =>
    match payloadLengthInt16 f with
    | Some n => uint64 n
    | None =>
      match payloadLengthInt64 f with
      | Some n => uint64 n
      | None => 0
      end
    end
  end.

(** The body of the [for i, b := range payload] loop of [umask]: the
    result is appended to [umasked]; [mask[j]] panics when the key is
    shorter than [j + 1] bytes. *)
Fixpoint umask_loop (mask : list byte) (i : nat) (payload umasked : list byte)
  : outcome (list byte) :=
  match payload with
  | [] => Ret umasked
  | b :: rest =>
    let j := (i mod 4)%nat in
    match nth_error mask j with
    | None => Panic IndexOutOfRange
    | Some m => umask_loop mask (S i) rest (umasked ++ [byte_xor b m])
    end
  end.

Definition umask (f : Frame) : outcome (list byte * option error) :=
  let payload := ApplicationData f in
  let umasked := repeat x00 (length payload) in
  let mask := MaskingKey f in
  umasked' <- umask_loop mask 0 payload umasked ;;
  Ret (umasked', None).

(** ** The libraries the package reads and writes through *)

Module bytes.

(** [bytes.Reader]: the part of the slice that is still unread. *)
Definition Reader : Type := list byte.

Definition NewReader (b : list byte) : Reader := b.

(** [Read(b)]: [io.EOF] once everything is read, whatever [len(b)] is;
    otherwise [copy] into [b] and advance. *)
Definition Read (r : Reader) (b : list byte)
  : (list byte * Z * option error) * Reader :=
  match r with
  | [] => ((b, 0, Some (IO EOF)), r)
  | _ :: _ =>
    let '(b', n) := copy b r in
    ((b', n, None), skipn (Z.to_nat n) r)
  end.

End bytes.

Module bufio.

(** [bufio.Reader] over the connection: [pending] are the bytes the peer
    has sent and the engine has not read yet, [final] is the error the
    connection reports once they are used up ([io.EOF] when the peer
    closed).  All pending bytes are available to one [Read]: a [Read]
    returns fewer bytes than asked for only when the stream holds
    fewer. *)
Record Reader : Type := { pending : list byte; final : io_error }.

Definition ReadByte (r : Reader) : (byte * option error) * Reader :=
  match pending r with
  | b :: rest => ((b, None), {| pending := rest; final := final r |})
  | [] => ((x00, Some (IO (final r))), r)
  end.

(** [Read(p)]; the byte count it also returns is discarded by every
    caller.  A read into an empty [p] reports no error; a read that
    finds no byte leaves [p] as it is and reports [final]; a short read
    fills the front of [p] and reports no error. *)
Definition Read (r : Reader) (p : list byte)
  : (list byte * option error) * Reader :=
  match p with
  | [] => ((p, None), r)
  | _ :: _ =>
    match pending r with
    | [] => ((p, Some (IO (final r))), r)
    | _ :: _ =>
      let '(p', n) := copy p (pending r) in
      ((p', None),
       {| pending := skipn (Z.to_nat n) (pending r); final := final r |})
    end
  end.

(** [bufio.Writer] over the connection: [written] are the bytes accepted
    so far, [werr] the error of a failed write.  Once a write has failed
    the writer accepts no more data, and every later write and [Flush]
    returns that error. *)
Record Writer : Type := { written : list byte; werr : option io_error }.

Definition Write (w : Writer) (p : list byte) : option error * Writer :=
  match werr w with
  | Some e => (Some (IO e), w)
  | None => (None, {| written := written w ++ p; werr := None |})
  end.

Definition WriteByte (w : Writer) (c : byte) : option error * Writer :=
  Write w [c].

Definition Flush (w : Writer) : option error * Writer :=
  (option_map IO (werr w), w).

End bufio.

Module binary.

(** [binary.BigEndian] *)
Definition Uint16 (b : list byte) : Z :=
  Z.lor (byte_to_Z (nth 1 b x00)) (Z.shiftl (byte_to_Z (nth 0 b x00)) 8).

Definition PutUint16 (v : Z) : list byte :=
  [byte_of_Z (Z.shiftr v 8); byte_of_Z v].

Definition Uint64 (b : list byte) : Z :=
  Z.lor (byte_to_Z (nth 7 b x00))
 (Z.lor (Z.shiftl (byte_to_Z (nth 6 b x00)) 8)
 (Z.lor (Z.shiftl (byte_to_Z (nth 5 b x00)) 16)
 (Z.lor (Z.shiftl (byte_to_Z (nth 4 b x00)) 24)
 (Z.lor (Z.shiftl (byte_to_Z (nth 3 b x00)) 32)
 (Z.lor (Z.shiftl (byte_to_Z (nth 2 b x00)) 40)
 (Z.lor (Z.shiftl (byte_to_Z (nth 1 b x00)) 48)
        (Z.shiftl (byte_to_Z (nth 0 b x00)) 56))))))).

Definition PutUint64 (v : Z) : list byte :=
  [byte_of_Z (Z.shiftr v 56); byte_of_Z (Z.shiftr v 48);
   byte_of_Z (Z.shiftr v 40); byte_of_Z (Z.shiftr v 32);
   byte_of_Z (Z.shiftr v 24); byte_of_Z (Z.shiftr v 16);
   byte_of_Z (Z.shiftr v 8); byte_of_Z v].

End binary.

(** ** The connection *)

Definition WebsocketType : Type := string.

Definition TextWebsocket : WebsocketType := "text"%string.
Definition BinaryWebsocket : WebsocketType := "binary"%string.

Record Websocket : Type := {
  reader : bufio.Reader;
  writer : bufio.Writer;
  t : WebsocketType;
  framingLimit : Z
}.

Definition with_reader (ws : Websocket) (r : bufio.Reader) : Websocket :=
  {| reader := r; writer := writer ws; t := t ws;
     framingLimit := framingLimit ws |}.

Definition with_writer (ws : Websocket) (w : bufio.Writer) : Websocket :=
  {| reader := reader ws; writer := w; t := t ws;
     framingLimit := framingLimit ws |}.

Definition Close (ws : Websocket) : option error := None.

(** Assignments to the fields of a frame. *)
Definition set_FIN (f : Frame) (v : bool) : Frame :=
  {| FIN := v; RSV1 := RSV1 f; RSV2 := RSV2 f; RSV3 := RSV3 f;
     FrameOpcode := FrameOpcode f; Mask := Mask f;
     payloadLengthInt := payloadLengthInt f;
     payloadLengthInt16 := payloadLengthInt16 f;
     payloadLengthInt64 := payloadLengthInt64 f;
     MaskingKey := MaskingKey f; ExtensionData := ExtensionData f;
     ApplicationData := ApplicationData f |}.

Definition set_Opcode (f : Frame) (v : Opcode) : Frame :=
  {| FIN := FIN f; RSV1 := RSV1 f; RSV2 := RSV2 f; RSV3 := RSV3 f;
     FrameOpcode := v; Mask := Mask f;
     payloadLengthInt := payloadLengthInt f;
     payloadLengthInt16 := payloadLengthInt16 f;
     payloadLengthInt64 := payloadLengthInt64 f;
     MaskingKey := MaskingKey f; ExtensionData := ExtensionData f;
     ApplicationData := ApplicationData f |}.

Definition set_Mask (f : Frame) (v : bool) : Frame :=
  {| FIN := FIN f; RSV1 := RSV1 f; RSV2 := RSV2 f; RSV3 := RSV3 f;
     FrameOpcode := FrameOpcode f; Mask := v;
     payloadLengthInt := payloadLengthInt f;
     payloadLengthInt16 := payloadLengthInt16 f;
     payloadLengthInt64 := payloadLengthInt64 f;
     MaskingKey := MaskingKey f; ExtensionData := ExtensionData f;
     ApplicationData := ApplicationData f |}.

Definition set_payloadLengthInt (f : Frame) (v : Z) : Frame :=
  {| FIN := FIN f; RSV1 := RSV1 f; RSV2 := RSV2 f; RSV3 := RSV3 f;
     FrameOpcode := FrameOpcode f; Mask := Mask f;
     payloadLengthInt := Some v;
     payloadLengthInt16 := payloadLengthInt16 f;
     payloadLengthInt64 := payloadLengthInt64 f;
     MaskingKey := MaskingKey f; ExtensionData := ExtensionData f;
     ApplicationData := ApplicationData f |}.

Definition set_payloadLengthInt16 (f : Frame) (v : Z) : Frame :=
  {| FIN := FIN f; RSV1 := RSV1 f; RSV2 := RSV2 f; RSV3 := RSV3 f;
     FrameOpcode := FrameOpcode f; Mask := Mask f;
     payloadLengthInt := payloadLengthInt f;
     payloadLengthInt16 := Some v;
     payloadLengthInt64 := payloadLengthInt64 f;
     MaskingKey := MaskingKey f; ExtensionData := ExtensionData f;
     ApplicationData := ApplicationData f |}.

Definition set_payloadLengthInt64 (f : Frame) (v : Z) : Frame :=
  {| FIN := FIN f; RSV1 := RSV1 f; RSV2 := RSV2 f; RSV3 := RSV3 f;
     FrameOpcode := FrameOpcode f; Mask := Mask f;
     payloadLengthInt := payloadLengthInt f;
     payloadLengthInt16 := payloadLengthInt16 f;
     payloadLengthInt64 := Some v;
     MaskingKey := MaskingKey f; ExtensionData := ExtensionData f;
     ApplicationData := ApplicationData f |}.

Definition set_MaskingKey (f : Frame) (v : list byte) : Frame :=
  {| FIN := FIN f; RSV1 := RSV1 f; RSV2 := RSV2 f; RSV3 := RSV3 f;
     FrameOpcode := FrameOpcode f; Mask := Mask f;
     payloadLengthInt := payloadLengthInt f;
     payloadLengthInt16 := payloadLengthInt16 f;
     payloadLengthInt64 := payloadLengthInt64 f;
     MaskingKey := v; ExtensionData := ExtensionData f;
     ApplicationData := ApplicationData f |}.

Definition set_ApplicationData (f : Frame) (v : list byte) : Frame :=
  {| FIN := FIN f; RSV1 := RSV1 f; RSV2 := RSV2 f; RSV3 := RSV3 f;
     FrameOpcode := FrameOpcode f; Mask := Mask f;
     payloadLengthInt := payloadLengthInt f;
     payloadLengthInt16 := payloadLengthInt16 f;
     payloadLengthInt64 := payloadLengthInt64 f;
     MaskingKey := MaskingKey f; ExtensionData := ExtensionData f;
     ApplicationData := v |}.

(** The [switch] of [readFrame] on the low four bits of the first byte;
    [None] is its [default] branch. *)
Definition opcode_of_bits (opcode : Z) : option Opcode :=
  if opcode =? 0x00 then Some ContinuationFrame
  else if opcode =? 0x01 then Some TextFrame
  else if opcode =? 0x02 then Some BinaryFrame
  else if (opcode =? 0x03) || (opcode =? 0x04) || (opcode =? 0x05)
          || (opcode =? 0x06) || (opcode =? 0x07) then Some NonControlFrame
  else if opcode =? 0x08 then Some ConnectionClose
  else if opcode =? 0x09 then Some Ping
  else if opcode =? 0x0a then Some Pong
  else if (opcode =? 0x0b) || (opcode =? 0x0c) || (opcode =? 0x0d)
          || (opcode =? 0x0e) || (opcode =? 0x0f) then Some ControlFrame
  else None.

(** [readFrame] reads a single frame from the stream.  The results of the
    three [Read] calls are checked for an error only: the number of bytes
    read is ignored, as in the source. *)
Definition readFrame (ws : Websocket)
  : outcome ((option Frame * option error) * Websocket) :=
  let f := zeroFrame in
  let '((b, err), r) := bufio.ReadByte (reader ws) in
  match err with
  | Some e => Ret ((None, Some e), with_reader ws r)
  | None =>
    let f := if Z.land (byte_to_Z b) 0x80 =? 0x80 then set_FIN f true else f in
    let opcode := Z.land (byte_to_Z b) 0x0f in
    match opcode_of_bits opcode with
    | None => Ret ((None, Some InvalidOpcode), with_reader ws r)
    | Some op =>
      let f := set_Opcode f op in
      let '((payloadMetaData, err), r) := bufio.ReadByte r in
      match err with
      | Some e => Ret ((None, Some e), with_reader ws r)
      | None =>
        let f := if Z.land (byte_to_Z payloadMetaData) 0x80 =? 0x80
                 then set_Mask f true else f in
        let payloadLengthMetadata := Z.land (byte_to_Z payloadMetaData) 0x7f in
        let '(res, r) :=
          if (0 <=? payloadLengthMetadata) && (payloadLengthMetadata <=? 125)
          then (inl (set_payloadLengthInt f payloadLengthMetadata), r)
          else if payloadLengthMetadata =? 126 then
            let '((length, err), r) := bufio.Read r (repeat x00 2) in
            match err with
            | Some e => (inr e, r)
            | None => (inl (set_payloadLengthInt16 f (binary.Uint16 length)), r)
            end
          else if payloadLengthMetadata =? 127 then
            let '((length, err), r) := bufio.Read r (repeat x00 8) in
            match err with
            | Some e => (inr e, r)
            | None => (inl (set_payloadLengthInt64 f (binary.Uint64 length)), r)
            end
          else (inr InvalidLength, r) in
        match res with
        | inr e => Ret ((None, Some e), with_reader ws r)
        | inl f =>
          let '(res, r) :=
            if Mask f then
              let '((maskingKey, err), r) := bufio.Read r (repeat x00 4) in
              match err with
              | Some _ => (inr BadRequest, r)
              | None => (inl (set_MaskingKey f maskingKey), r)
              end
            else (inl f, r) in
          match res with
          | inr e => Ret ((None, Some e), with_reader ws r)
          | inl f =>
            payload <- make_bytes (PayloadLength f) ;;
            let '((payload, err), r) := bufio.Read r payload in
            match err with
            | Some _ => Ret ((None, Some BadRequest), with_reader ws r)
            | None =>
              Ret ((Some (set_ApplicationData f payload), None),
                   with_reader ws r)
            end
          end
        end
      end
    end
  end.

(** The [switch] of [writeFrame] on the opcode: the bits to set in the
    first byte; [None] is its [default] branch. *)
Definition bits_of_opcode (o : Opcode) : option Z :=
  if String.eqb o ContinuationFrame then Some 0x00
  else if String.eqb o TextFrame then Some 0x01
  else if String.eqb o BinaryFrame then Some 0x02
  else if String.eqb o ConnectionClose then Some 0x08
  else if String.eqb o Ping then Some 0x09
  else if String.eqb o Pong then Some 0x0A
  else None.

Definition writeFrame (ws : Websocket) (frame : Frame)
  : outcome (option error * Websocket) :=
  let frameIdentifier := 0x00 in
  let frameIdentifier :=
    if FIN frame then Z.lor frameIdentifier 0x80 else frameIdentifier in
  match bits_of_opcode (FrameOpcode frame) with
  | None => Ret (Some InvalidOpcode, ws)
  | Some bits =>
    let frameIdentifier := Z.lor frameIdentifier bits in
    let '(err, w) := bufio.WriteByte (writer ws) (byte_of_Z frameIdentifier) in
    match err with
    | Some e => Ret (Some e, with_writer ws w)
    | None =>
      let res :=
        if (0 <=? PayloadLength frame) && (PayloadLength frame <=? 125)
        then inl (PayloadLength frame)
        else if PayloadLength frame <=? MaxUint16 then inl 126
        else if PayloadLength frame <=? MaxUint64 then inl 127
        else inr InvalidLength in
      match res with
      | inr e => Ret (Some e, with_writer ws w)
      | inl payloadLength =>
        let '(err, w) := bufio.WriteByte w (byte_of_Z payloadLength) in
        match err with
        | Some e => Ret (Some e, with_writer ws w)
        | None =>
          '(err, w) <-
            (if payloadLength =? 126 then
               match payloadLengthInt16 frame with
               | None => Panic NilDereference
               | Some v => Ret (bufio.Write w (binary.PutUint16 v))
               end
             else if payloadLength =? 127 then
               match payloadLengthInt64 frame with
               | None => Panic NilDereference
               | Some v => Ret (bufio.Write w (binary.PutUint64 v))
               end
             else Ret (None, w)) ;;
          match err with
          | Some e => Ret (Some e, with_writer ws w)
          | None =>
            let '(err, w) := bufio.Write w (ApplicationData frame) in
            match err with
            | Some e => Ret (Some e, with_writer ws w)
            | None =>
              let '(err, w) := bufio.Flush w in
              match err with
              | Some e => Ret (Some e, with_writer ws w)
              | None => Ret (None, with_writer ws w)
              end
            end
          end
        end
      end
    end
  end.

(** The conversion [uint(x)]; [uint] is 64 bits wide. *)
Definition uint (x : Z) : Z := x mod 2 ^ 64.

(** The chain of [if]s of [fragment] that records the length of a chunk
    in one of the three length fields; [inr] is its early [return]. *)
Definition lengthFields (frame : Frame) (chunkLength : Z) : Frame + error :=
  if chunkLength <? 126 then
    inl (set_payloadLengthInt frame (uint chunkLength))
  else if (126 <=? uint16 chunkLength) && (uint16 chunkLength <? MaxUint16) then
    inl (set_payloadLengthInt16 frame (uint16 chunkLength))
  else if (MaxUint16 <=? uint64 chunkLength) && (uint64 chunkLength <? MaxUint64) then
    inl (set_payloadLengthInt64 frame (uint64 chunkLength))
  else inr InvalidLength.

(** [frames[i].field = v], for [i] within the slice. *)
Fixpoint update {A : Type} (i : nat) (g : A -> A) (l : list A) : list A :=
  match l, i with
  | [], _ => []
  | x :: rest, O => g x :: rest
  | x :: rest, S i' => x :: update i' g rest
  end.

(** The [for] loop of [fragment].  It ends by [break] (the error
    component is [None] then) or by the early [return frames,
    InvalidLength]; one unit of fuel is spent per iteration. *)
Fixpoint fragment_loop (fuel : nat) (ws : Websocket)
    (fragmentReader : bytes.Reader) (payloadLength : Z) (frames : list Frame)
  : outcome (list Frame * option error) :=
  match fuel with
  | O => OutOfFuel
  | S fuel' =>
    let chunkSize := payloadLength in
    let chunkSize :=
      if framingLimit ws <? chunkSize then framingLimit ws else chunkSize in
    chunk <- make_bytes chunkSize ;;
    let '((chunk, read, err), fragmentReader) :=
      bytes.Read fragmentReader chunk in
    match err with
    | Some (IO EOF) => Ret (frames, None)
    | _ =>
      let frame := set_Opcode (set_ApplicationData zeroFrame chunk)
                              ContinuationFrame in
      let chunkLength := len chunk in
      match lengthFields frame chunkLength with
      | inr e => Ret (frames, Some e)
      | inl frame =>
        fragment_loop fuel' ws fragmentReader (payloadLength - read)
                      (frames ++ [frame])
      end
    end
  end.

(** [fragment] splits the payload according to the framing limit. *)
Definition fragment (fuel : nat) (ws : Websocket) (data : list byte)
  : outcome (list Frame * option error) :=
  '(frames, err) <-
    fragment_loop fuel ws (bytes.NewReader data) (len data) [] ;;
  match err with
  | Some e => Ret (frames, Some e)
  | None =>
    if 0 <? len frames then
      let frames :=
        update (length frames - 1) (fun f => set_FIN f true) frames in
      if String.eqb (t ws) TextWebsocket then
        Ret (update 0 (fun f => set_Opcode f TextFrame) frames, None)
      else if String.eqb (t ws) BinaryWebsocket then
        Ret (update 0 (fun f => set_Opcode f BinaryFrame) frames, None)
      else Ret (frames, Some InvalidFrameType)
    else Ret (frames, None)
  end.

(** The [for _, frame := range frames] loop of [Send]. *)
Fixpoint Send_loop (ws : Websocket) (frames : list Frame)
  : outcome (option error * Websocket) :=
  match frames with
  | [] => Ret (None, ws)
  | frame :: rest =>
    '(err, ws') <- writeFrame ws frame ;;
    match err with
    | Some e => Ret (Some e, ws')
    | None => Send_loop ws' rest
    end
  end.

(** [Send] transports the message from the server to the client. *)
Definition Send (fuel : nat) (ws : Websocket) (data : list byte)
  : outcome (option error * Websocket) :=
  '(frames, err) <- fragment fuel ws data ;;
  match err with
  | Some e => Ret (Some e, ws)
  | None => Send_loop ws frames
  end.

(** The [for] loop of [Receive]; one unit of fuel per frame read. *)
Fixpoint Receive_loop (fuel : nat) (ws : Websocket) (message : list byte)
  : outcome ((list byte * option error) * Websocket) :=
  match fuel with
  | O => OutOfFuel
  | S fuel' =>
    '((frame, err), ws') <- readFrame ws ;;
    match err with
    | Some e => Ret ((message, Some e), ws')
    | None =>
      match frame with
      | None => Panic NilDereference
      | Some frame =>
        '(umasked, err) <- umask frame ;;
        match err with
        | Some e => Ret ((message, Some e), ws')
        | None =>
          let message := message ++ umasked in
          if FIN frame then Ret ((message, None), ws')
          else Receive_loop fuel' ws' message
        end
      end
    end
  end.

(** [Receive] waits for a message from the client. *)
Definition Receive (fuel : nat) (ws : Websocket)
  : outcome ((list byte * option error) * Websocket) :=
  Receive_loop fuel ws [].

(** ** The libraries of the opening handshake *)

Module sha1.

(** [crypto/sha1]: SHA-1 as FIPS 180-4 defines it, on 32-bit words. *)
Definition w32 (x : Z) : Z := x mod 2 ^ 32.

Definition rotl (n x : Z) : Z :=
  w32 (Z.lor (Z.shiftl x n) (Z.shiftr x (32 - n))).

(** The message, the byte 0x80, zero bytes up to 56 modulo 64, and the
    length of the message in bits as 8 bytes. *)
Definition pad (msg : list byte) : list byte :=
  let l := len msg in
  msg ++ [x80] ++ repeat x00 (Z.to_nat ((55 - l) mod 64))
      ++ binary.PutUint64 (8 * l).

Definition word (b0 b1 b2 b3 : byte) : Z :=
  Z.lor (Z.shiftl (byte_to_Z b0) 24)
 (Z.lor (Z.shiftl (byte_to_Z b1) 16)
 (Z.lor (Z.shiftl (byte_to_Z b2) 8) (byte_to_Z b3))).

Fixpoint words (bs : list byte) : list Z :=
  match bs with
  | b0 :: b1 :: b2 :: b3 :: rest => word b0 b1 b2 b3 :: words rest
  | _ => []
  end.

(** The message schedule, latest word first: [n] more words are added
    to [ws], each from the words 3, 8, 14 and 16 places before it. *)
Fixpoint schedule (n : nat) (ws : list Z) : list Z :=
  match n with
  | O => ws
  | S n' =>
    let w := rotl 1 (Z.lxor (Z.lxor (nth 2 ws 0) (nth 7 ws 0))
                            (Z.lxor (nth 13 ws 0) (nth 15 ws 0))) in
    schedule n' (w :: ws)
  end.

Definition state : Type := (Z * Z * Z * Z * Z)%type.

Definition init : state :=
  (0x67452301, 0xEFCDAB89, 0x98BADCFE, 0x10325476, 0xC3D2E1F0).

Definition round (st : state) (iw : nat * Z) : state :=
  let '(a, b, c, d, e) := st in
  let '(i, w) := iw in
  let '(f, k) :=
    if (i <? 20)%nat then
      (Z.lor (Z.land b c) (Z.land (Z.lxor b 0xFFFFFFFF) d), 0x5A827999)
    else if (i <? 40)%nat then
      (Z.lxor (Z.lxor b c) d, 0x6ED9EBA1)
    else if (i <? 60)%nat then
      (Z.lor (Z.lor (Z.land b c) (Z.land b d)) (Z.land c d), 0x8F1BBCDC)
    else
      (Z.lxor (Z.lxor b c) d, 0xCA62C1D6) in
  (w32 (rotl 5 a + f + e + k + w), a, rotl 30 b, c, d).

Definition block (h : state) (chunk : list byte) : state :=
  let ws := rev (schedule 64 (rev (words chunk))) in
  let '(a, b, c, d, e) := fold_left round (combine (seq 0 80) ws) h in
  let '(h0, h1, h2, h3, h4) := h in
  (w32 (h0 + a), w32 (h1 + b), w32 (h2 + c), w32 (h3 + d), w32 (h4 + e)).

(** The blocks of 64 bytes, one per unit of [n]. *)
Fixpoint blocks (n : nat) (h : state) (bs : list byte) : state :=
  match n with
  | O => h
  | S n' => blocks n' (block h (firstn 64 bs)) (skipn 64 bs)
  end.

Definition bytes_of_word (x : Z) : list byte :=
  [byte_of_Z (Z.shiftr x 24); byte_of_Z (Z.shiftr x 16);
   byte_of_Z (Z.shiftr x 8); byte_of_Z x].

(** [sha1.Sum(data)]: the 20 bytes of the digest. *)
Definition Sum (data : list byte) : list byte :=
  let padded := pad data in
  let '(h0, h1, h2, h3, h4) :=
    blocks (length padded / 64) init padded in
  bytes_of_word h0 ++ bytes_of_word h1 ++ bytes_of_word h2
    ++ bytes_of_word h3 ++ bytes_of_word h4.

End sha1.

Module base64.

(** [encoding/base64]: the standard alphabet of RFC 4648, with padding. *)
Definition encodeStd : list byte :=
  list_byte_of_string
    "ABCDEFGHIJKLMNOPQRSTUVWXYZabcdefghijklmnopqrstuvwxyz0123456789+/".

Definition digit (x : Z) : byte :=
  nth (Z.to_nat (Z.land x 0x3F)) encodeStd x00.

Definition padChar : byte := "="%byte.

Fixpoint encode (src : list byte) : list byte :=
  match src with
  | [] => []
  | [b0] =>
    let v := Z.shiftl (byte_to_Z b0) 16 in
    [digit (Z.shiftr v 18); digit (Z.shiftr v 12); padChar; padChar]
  | [b0; b1] =>
    let v := Z.lor (Z.shiftl (byte_to_Z b0) 16)
                   (Z.shiftl (byte_to_Z b1) 8) in
    [digit (Z.shiftr v 18); digit (Z.shiftr v 12); digit (Z.shiftr v 6);
     padChar]
  | b0 :: b1 :: b2 :: rest =>
    let v := Z.lor (Z.shiftl (byte_to_Z b0) 16)
            (Z.lor (Z.shiftl (byte_to_Z b1) 8) (byte_to_Z b2)) in
    digit (Z.shiftr v 18) :: digit (Z.shiftr v 12) :: digit (Z.shiftr v 6)
      :: digit v :: encode rest
  end.

(** [base64.StdEncoding.EncodeToString(src)] *)
Definition EncodeToString (src : list byte) : string :=
  string_of_list_byte (encode src).

End base64.

Module http.

(** [net/http], as far as the handshake uses it. *)

Definition upper (c : ascii) : ascii :=
  let n := nat_of_ascii c in
  if ((97 <=? n) && (n <=? 122))%nat then ascii_of_nat (n - 32) else c.

Definition lower (c : ascii) : ascii :=
  let n := nat_of_ascii c in
  if ((65 <=? n) && (n <=? 90))%nat then ascii_of_nat (n + 32) else c.

(** [CanonicalHeaderKey], for keys made of letters, digits and hyphens:
    the first letter and every letter after a hyphen in upper case, the
    others in lower case. *)
Fixpoint canonical (up : bool) (s : string) : string :=
  match s with
  | EmptyString => EmptyString
  | String c rest =>
    String (if up then upper c else lower c)
           (canonical (Ascii.eqb c "-"%char) rest)
  end.

Definition CanonicalHeaderKey (s : string) : string := canonical true s.

(** [http.Header] with one value per key, kept in the order of the keys,
    which is the order [Write] emits them in. *)
Definition Header : Type := list (string * string).

Fixpoint insert (h : Header) (key value : string) : Header :=
  match h with
  | [] => [(key, value)]
  | (k, v) :: rest =>
    match String.compare key k with
    | Lt => (key, value) :: h
    | Eq => (key, value) :: rest
    | Gt => (k, v) :: insert rest key value
    end
  end.

Definition Set_ (h : Header) (key value : string) : Header :=
  insert h (CanonicalHeaderKey key) value.

(** [Get] returns the empty string for a key that is not there. *)
Definition Get (h : Header) (key : string) : string :=
  match find (fun kv => String.eqb (fst kv) (CanonicalHeaderKey key)) h with
  | Some kv => snd kv
  | None => ""%string
  end.

Record Request : Type := { RequestHeader : Header }.

Record Response : Type := {
  Status : string;
  StatusCode : Z;
  ResponseHeader : Header;
  Proto : string;
  ProtoMajor : Z;
  ProtoMinor : Z
}.

Definition CRLF : string := String (ascii_of_nat 13) (String (ascii_of_nat 10) EmptyString).

Definition header_lines (h : Header) : string :=
  fold_right (fun kv acc => (fst kv ++ ": " ++ snd kv ++ CRLF ++ acc)%string)
             ""%string h.

(** [Response.Write] for a response without a body whose [Status]
    starts with its status code and whose protocol is HTTP/1.1: the
    status line, the headers, an empty line. *)
Definition Response_Write (resp : Response) (w : bufio.Writer)
  : option error * bufio.Writer :=
  bufio.Write w
    (list_byte_of_string
       ("HTTP/1.1 " ++ Status resp ++ CRLF
          ++ header_lines (ResponseHeader resp) ++ CRLF)%string).

(** The connection a hijacked response writer hands over: the bytes the
    client will send and the error that ends them, and the error, if
    any, with which the connection refuses what is written to it. *)
Record Conn : Type := {
  incoming : list byte;
  incoming_final : io_error;
  refused : option io_error
}.

(** An [http.ResponseWriter]: one that does not implement
    [http.Hijacker], or one whose [Hijack] returns a connection or an
    error. *)
Inductive ResponseWriter : Type :=
| NoHijacker
| Hijacker (hijack : Conn + io_error).

End http.

(** ** The opener (opener.go) *)

Definition websocketGUID : string :=
  "258EAFA5-E914-47DA-95CA-C5AB0DC85B11"%string.

(** [generateWebsocketAcceptToken] generates the token used as the
    Sec-WebSocket-Accept header field. *)
Definition generateWebsocketAcceptToken (secWebsocketKey : string) : string :=
  let combinedKey :=
    list_byte_of_string (secWebsocketKey ++ websocketGUID)%string in
  let hash := sha1.Sum combinedKey in
  let encodedKey := base64.EncodeToString hash in
  encodedKey.

Record WSOpener : Type := { MaxBytes : Z }.

Definition newWebsocketAcceptResponse (acceptToken : string) : http.Response :=
  let header := [] in
  let header := http.Set_ header "Upgrade" "websocket" in
  let header := http.Set_ header "Connection" "Upgrade" in
  let header := http.Set_ header "Sec-WebSocket-Accept" acceptToken in
  {| http.Status := "101 Switching Protocols";
     http.StatusCode := 101;
     http.ResponseHeader := header;
     http.Proto := "HTTP/1.1";
     http.ProtoMajor := 1;
     http.ProtoMinor := 1 |}.

(** [handshake] performs the websocket handshake. *)
Definition handshake (wso : WSOpener) (writer : bufio.Writer)
    (r : http.Request) : option error * bufio.Writer :=
  let websocketKey := http.Get (http.RequestHeader r) "Sec-WebSocket-Key" in
  let acceptToken := generateWebsocketAcceptToken websocketKey in
  let response := newWebsocketAcceptResponse acceptToken in
  let '(err, writer) := http.Response_Write response writer in
  match err with
  | Some e => (Some e, writer)
  | None =>
    let '(err, writer) := bufio.Flush writer in
    match err with
    | Some e => (Some e, writer)
    | None => (None, writer)
    end
  end.

(** [Open] opens a websocket connection by upgrading the HTTP
    connection. *)
Definition Open (wso : WSOpener) (w : http.ResponseWriter) (r : http.Request)
    (t : WebsocketType) : option Websocket * option error :=
  match w with
  | http.NoHijacker => (None, Some HijackingNotSupported)
  | http.Hijacker (inr err) => (None, Some (IO err))
  | http.Hijacker (inl conn) =>
    let ws := {|
      reader := {| bufio.pending := http.incoming conn;
                   bufio.final := http.incoming_final conn |};
      writer := {| bufio.written := []; bufio.werr := http.refused conn |};
      t := t;
      framingLimit := MaxBytes wso |} in
    let '(err, writer') := handshake wso (writer ws) r in
    match err with
    | Some e => (None, Some e)
    | None => (Some (with_writer ws writer'), None)
    end
  end.

(** * Vocabulary of the statements

    Nothing below is code of the package: these definitions name the
    situations the properties are about. *)

(** A connection of the given type and framing limit on which the client
    has sent [input] and then closed, and to which nothing has been
    written yet. *)
Definition connection (ty : WebsocketType) (limit : Z) (input : list byte)
  : Websocket :=
  {| reader := {| bufio.pending := input; bufio.final := EOF |};
     writer := {| bufio.written := []; bufio.werr := None |};
     t := ty;
     framingLimit := limit |}.

(** A frame as a client sends it: masked, with its key and its payload. *)
Definition maskedFrame (key data : list byte) : Frame :=
  set_ApplicationData (set_MaskingKey (set_Mask zeroFrame true) key) data.

(** The bytes [umask] computes for the payload, without the buffer it
    appends them to: byte [i] is combined with byte [i mod 4] of the key. *)
Fixpoint xor_stream (mask : list byte) (i : nat) (payload : list byte)
  : list byte :=
  match payload with
  | [] => []
  | b :: rest =>
    byte_xor b (nth (i mod 4) mask x00) :: xor_stream mask (S i) rest
  end.

(** The frame the loop of [fragment] builds for a chunk, before its
    length is recorded. *)
Definition chunkFrame (chunk : list byte) : Frame :=
  set_Opcode (set_ApplicationData zeroFrame chunk) ContinuationFrame.

(** A frame as the loop of [fragment] leaves it, for a limit of at least
    1: not final, with the continuation opcode, holding a chunk of at
    least one and at most [limit] bytes whose length is recorded by
    [lengthFields]. *)
Definition chunkOf (limit : Z) (f : Frame) : Prop :=
  FIN f = false
  /\ FrameOpcode f = ContinuationFrame
  /\ 1 <= len (ApplicationData f) <= limit
  /\ len (ApplicationData f) <= MaxInt
  /\ lengthFields (chunkFrame (ApplicationData f)) (len (ApplicationData f))
     = inl f.

(** The opcode [fragment] gives the first frame of a message. *)
Definition messageOpcode (ty : WebsocketType) : Opcode :=
  if String.eqb ty TextWebsocket then TextFrame else BinaryFrame.

(** The round trip: the payload is sent on a connection, and the bytes
    that were written are received on a connection of the same type and
    limit. *)
Definition roundtrip (fuel : nat) (ty : WebsocketType) (limit : Z)
    (payload : list byte) : outcome (list byte * option error) :=
  '(err, ws) <- Send fuel (connection ty limit []) payload ;;
  match err with
  | Some e => Ret ([], Some e)
  | None =>
    '(res, _) <-
      Receive fuel (connection ty limit (bufio.written (writer ws))) ;;
    Ret res
  end.

(** The frame [readFrame] decodes from the bytes [Send] wrote for the
    payload. *)
Definition decodeSent (fuel : nat) (ty : WebsocketType) (limit : Z)
    (payload : list byte) : outcome (option Frame * option error) :=
  '(_, ws) <- Send fuel (connection ty limit []) payload ;;
  '(res, _) <- readFrame (connection ty limit (bufio.written (writer ws))) ;;
  Ret res.

(** [accumulated ws message ws' message' n]: starting from [ws] with
    [message] in the buffer, the receive loop reads [n] frames that are
    not final, and is then at [ws'] with [message'] in the buffer. *)
Inductive accumulated
  : Websocket -> list byte -> Websocket -> list byte -> nat -> Prop :=
| accumulated_none (ws : Websocket) (message : list byte) :
    accumulated ws message ws message 0
| accumulated_frame (ws ws1 ws2 : Websocket) (frame : Frame)
    (message umasked message2 : list byte) (n : nat) :
    readFrame ws = Ret ((Some frame, None), ws1) ->
    umask frame = Ret (umasked, None) ->
    FIN frame = false ->
    accumulated ws1 (message ++ umasked) ws2 message2 n ->
    accumulated ws message ws2 message2 (S n).

(** A connection the server can hijack and that accepts what is written
    to it, and the request of the handshake example of RFC 6455. *)
Definition quietConn : http.Conn :=
  {| http.incoming := []; http.incoming_final := EOF;
     http.refused := None |}.

Definition sampleRequest : http.Request :=
  {| http.RequestHeader :=
       http.Set_ [] "Sec-WebSocket-Key" "dGhlIHNhbXBsZSBub25jZQ==" |}.

(** A payload of [n] zero bytes. *)
Definition zeros (n : Z) : list byte := repeat x00 (Z.to_nat n).

(** What the statements about long payloads look at in a frame: the
    flag, the opcode, the three length fields and the length of the
    data. *)
Definition summary (f : Frame)
  : bool * Opcode * (option Z * option Z * option Z) * Z :=
  (FIN f, FrameOpcode f,
   (payloadLengthInt f, payloadLengthInt16 f, payloadLengthInt64 f),
   len (ApplicationData f)).

Definition fragmentSummary (fuel : nat) (ws : Websocket) (data : list byte)
  : outcome (list (bool * Opcode * (option Z * option Z * option Z) * Z)
             * option error) :=
  '(frames, err) <- fragment fuel ws data ;;
  Ret (map summary frames, err).

Definition decodeSentSummary (fuel : nat) (ty : WebsocketType) (limit : Z)
    (payload : list byte)
  : outcome (option (bool * Opcode * (option Z * option Z * option Z) * Z)
             * option error) :=
  '(fr, err) <- decodeSent fuel ty limit payload ;;
  Ret (option_map summary fr, err).

(** The tag [writeFrame] puts in the low seven bits of the second byte. *)
Definition lengthTag (f : Frame) : Z :=
  if PayloadLength f <=? 125 then PayloadLength f
  else if PayloadLength f <=? MaxUint16 then 126
  else 127.

(** The bytes [writeFrame] writes for a frame when it returns no error. *)
Definition wire (f : Frame) : list byte :=
  [byte_of_Z (Z.lor (if FIN f then 0x80 else 0x00)
                    (match bits_of_opcode (FrameOpcode f) with
                     | Some bits => bits
                     | None => 0
                     end));
   byte_of_Z (lengthTag f)]
  ++ (if lengthTag f =? 126 then
        match payloadLengthInt16 f with
        | Some v => binary.PutUint16 v
        | None => []
        end
      else if lengthTag f =? 127 then
        match payloadLengthInt64 f with
        | Some v => binary.PutUint64 v
        | None => []
        end
      else [])
  ++ ApplicationData f.

(** The length is recorded in the one field that [writeFrame] reads for
    it, the other two are [nil]. *)
Definition tagged (f : Frame) : Prop :=
  let n := PayloadLength f in
  (n <= 125 /\ payloadLengthInt f = Some n
   /\ payloadLengthInt16 f = None /\ payloadLengthInt64 f = None)
  \/ (126 <= n <= 65535 /\ payloadLengthInt f = None
      /\ payloadLengthInt16 f = Some n /\ payloadLengthInt64 f = None)
  \/ (65536 <= n <= MaxInt /\ payloadLengthInt f = None
      /\ payloadLengthInt16 f = None /\ payloadLengthInt64 f = Some n).

(** A frame as the server sends it: no reserved bit, no mask, no
    extension data, an opcode [writeFrame] knows. *)
Definition plain (f : Frame) : Prop :=
  RSV1 f = false /\ RSV2 f = false /\ RSV3 f = false
  /\ Mask f = false /\ MaskingKey f = [] /\ ExtensionData f = []
  /\ bits_of_opcode (FrameOpcode f) <> None.

(** [n] calls of [readFrame], one after the other: the frames they
    return, up to the first error. *)
Fixpoint readFrames (n : nat) (ws : Websocket)
  : outcome ((list Frame * option error) * Websocket) :=
  match n with
  | O => Ret (([], None), ws)
  | S n' =>
    '((fr, err), ws1) <- readFrame ws ;;
    match err, fr with
    | Some e, _ => Ret (([], Some e), ws1)
    | None, None => Ret (([], None), ws1)
    | None, Some f =>
      '((fs, err'), ws2) <- readFrames n' ws1 ;;
      Ret ((f :: fs, err'), ws2)
    end
  end.

(** A frame [writeFrame] encodes and [readFrame] decodes to itself. *)
Definition codecFrame (f : Frame) : Prop :=
  plain f /\ tagged f /\ PayloadLength f = len (ApplicationData f).

(** A ping frame with two bytes of data. *)
Definition pingFrame : Frame :=
  set_payloadLengthInt
    (set_Opcode (set_FIN (set_ApplicationData zeroFrame [x68; x69]) true) Ping)
    2.

(** The bytes of a frame as a client sends it, for data of at most 125
    bytes: the first byte, the mask bit with the length, the key, and
    the data as it travels. *)
Definition clientFrame (b1 : byte) (key data : list byte) : list byte :=
  b1 :: byte_of_Z (0x80 + len data) :: key ++ data.

(** The FIN bit of a first byte. *)
Definition finBit (b1 : byte) : bool := Z.land (byte_to_Z b1) 0x80 =? 0x80.

(** A message in fragments: first byte, key and data of each frame. *)
Definition clientFrames (frs : list (byte * list byte * list byte))
  : list byte :=
  concat (map (fun fr => clientFrame (fst (fst fr)) (snd (fst fr)) (snd fr))
              frs).

(** What [umask] returns for each of them, one after the other. *)
Definition umaskedFrames (frs : list (byte * list byte * list byte))
  : list byte :=
  concat (map (fun fr => repeat x00 (length (snd fr))
                           ++ xor_stream (snd (fst fr)) 0 (snd fr))
              frs).

(** The frame has a key of four bytes and at most 125 bytes of data. *)
Definition smallFrame (fr : byte * list byte * list byte) : Prop :=
  length (snd (fst fr)) = 4%nat /\ len (snd fr) <= 125.

(** * Properties *)

(** ** Bytes *)

Lemma byte_to_Z_range (b : byte) : 0 <= byte_to_Z b < 256.
Proof.
  unfold byte_to_Z. pose proof (Byte.to_N_bounded b). lia.
Qed.

Lemma byte_of_to_Z (b : byte) : byte_of_Z (byte_to_Z b) = b.
Proof.
  unfold byte_of_Z. pose proof (byte_to_Z_range b) as H.
  rewrite Z.mod_small by exact H.
  unfold byte_to_Z. rewrite N2Z.id, Byte.of_to_N. reflexivity.
Qed.

Lemma byte_to_of_Z (x : Z) : byte_to_Z (byte_of_Z x) = x mod 256.
Proof.
  unfold byte_of_Z, byte_to_Z.
  pose proof (Z.mod_pos_bound x 256 ltac:(lia)) as H.
  destruct (Byte.of_N (Z.to_N (x mod 256))) as [b|] eqn:E.
  - apply Byte.to_of_N in E. rewrite E. lia.
  - exfalso.
    pose proof (Byte.to_of_N_option_map (Z.to_N (x mod 256))) as M.
    rewrite E in M. simpl in M.
    destruct (N.leb_spec (Z.to_N (x mod 256)) 255); [discriminate | lia].
Qed.

Lemma lxor_byte_range (a b : Z) :
  0 <= a < 256 -> 0 <= b < 256 -> 0 <= Z.lxor a b < 256.
Proof.
  intros Ha Hb. split.
  - apply Z.lxor_nonneg. lia.
  - destruct (Z.eq_dec (Z.lxor a b) 0) as [->|Hnz]; [lia|].
    assert (0 <= Z.lxor a b) by (apply Z.lxor_nonneg; lia).
    apply (Z.log2_lt_pow2 _ 8); [lia|].
    eapply Z.le_lt_trans; [apply Z.log2_lxor; lia|].
    apply Z.max_lub_lt.
    + destruct (Z.eq_dec a 0) as [->|]; [simpl; lia|].
      apply Z.log2_lt_pow2; lia.
    + destruct (Z.eq_dec b 0) as [->|]; [simpl; lia|].
      apply Z.log2_lt_pow2; lia.
Qed.

(** The XOR of two bytes, applied twice with the same second byte, gives
    the first byte back. *)
Lemma byte_xor_involutive (a k : byte) : byte_xor (byte_xor a k) k = a.
Proof.
  unfold byte_xor. rewrite byte_to_of_Z.
  rewrite Z.mod_small
    by (apply lxor_byte_range; apply byte_to_Z_range).
  rewrite Z.lxor_assoc, Z.lxor_nilpotent, Z.lxor_0_r.
  apply byte_of_to_Z.
Qed.

(** ** Big-endian lengths *)

(** A number below [2 ^ k] and a multiple of [2 ^ k] share no bit. *)
Lemma land_low_high (a x k : Z) :
  0 <= k -> 0 <= a < 2 ^ k -> x mod 2 ^ k = 0 -> Z.land a x = 0.
Proof.
  intros Hk Ha Hx. apply Z.bits_inj'. intros n Hn.
  rewrite Z.land_spec, Z.bits_0.
  destruct (Z.lt_ge_cases n k) as [Hlt|Hge].
  - rewrite <- (Z.mod_pow2_bits_low x k n Hlt), Hx, Z.bits_0.
    apply andb_false_r.
  - rewrite <- (Z.mod_small a (2 ^ k)) by exact Ha.
    rewrite Z.mod_pow2_bits_high by lia. reflexivity.
Qed.

Lemma lor_low_high (a x k : Z) :
  0 <= k -> 0 <= a < 2 ^ k -> x mod 2 ^ k = 0 -> Z.lor a x = a + x.
Proof.
  intros Hk Ha Hx. pose proof (Z.add_lor_land a x) as H.
  rewrite (land_low_high a x k) in H by assumption. lia.
Qed.

(** [Uint16] and [Uint64] read back what [PutUint16] and [PutUint64]
    wrote. *)
Lemma Uint16_PutUint16 (v : Z) :
  0 <= v < 65536 -> binary.Uint16 (binary.PutUint16 v) = v.
Proof.
  intros Hv. unfold binary.Uint16, binary.PutUint16. cbn [nth].
  rewrite !byte_to_of_Z.
  rewrite Z.shiftr_div_pow2, Z.shiftl_mul_pow2 by lia.
  change (2 ^ 8) with 256.
  rewrite (lor_low_high _ _ 8); change (2 ^ 8) with 256;
    try (Z.div_mod_to_equations; lia).
Qed.

Lemma Uint64_PutUint64 (v : Z) :
  0 <= v < 2 ^ 64 -> binary.Uint64 (binary.PutUint64 v) = v.
Proof.
  intros Hv. unfold binary.Uint64, binary.PutUint64. cbn [nth].
  rewrite !byte_to_of_Z.
  rewrite !Z.shiftr_div_pow2, !Z.shiftl_mul_pow2 by lia.
  cbn in Hv.
  rewrite (lor_low_high (_ * 2 ^ 48) _ 56);
    [|lia|cbn; Z.div_mod_to_equations; lia|cbn; Z.div_mod_to_equations; lia].
  rewrite (lor_low_high (_ * 2 ^ 40) _ 48);
    [|lia|cbn; Z.div_mod_to_equations; lia|cbn; Z.div_mod_to_equations; lia].
  rewrite (lor_low_high (_ * 2 ^ 32) _ 40);
    [|lia|cbn; Z.div_mod_to_equations; lia|cbn; Z.div_mod_to_equations; lia].
  rewrite (lor_low_high (_ * 2 ^ 24) _ 32);
    [|lia|cbn; Z.div_mod_to_equations; lia|cbn; Z.div_mod_to_equations; lia].
  rewrite (lor_low_high (_ * 2 ^ 16) _ 24);
    [|lia|cbn; Z.div_mod_to_equations; lia|cbn; Z.div_mod_to_equations; lia].
  rewrite (lor_low_high (_ * 2 ^ 8) _ 16);
    [|lia|cbn; Z.div_mod_to_equations; lia|cbn; Z.div_mod_to_equations; lia].
  rewrite (lor_low_high _ _ 8);
    [|lia|cbn; Z.div_mod_to_equations; lia|cbn; Z.div_mod_to_equations; lia].
  cbn. Z.div_mod_to_equations. lia.
Qed.

(** ** [umask] *)

Lemma xor_stream_length mask i payload :
  length (xor_stream mask i payload) = length payload.
Proof.
  revert i. induction payload as [|b rest IH]; intros i; simpl; auto.
Qed.

(** The XOR with the key is its own inverse. *)
Lemma xor_stream_involutive mask i payload :
  xor_stream mask i (xor_stream mask i payload) = payload.
Proof.
  revert i. induction payload as [|b rest IH]; intros i; cbn [xor_stream].
  - reflexivity.
  - rewrite byte_xor_involutive, IH. reflexivity.
Qed.

Lemma umask_loop_key4 mask i payload umasked :
  length mask = 4%nat ->
  umask_loop mask i payload umasked
  = Ret (umasked ++ xor_stream mask i payload).
Proof.
  intros Hm. revert i umasked.
  induction payload as [|b rest IH]; intros i umasked;
    cbn [umask_loop xor_stream].
  - rewrite app_nil_r. reflexivity.
  - destruct (nth_error mask (i mod 4)) as [m|] eqn:E.
    + rewrite IH. rewrite <- app_assoc. cbn [app].
      rewrite (nth_error_nth _ _ x00 E). reflexivity.
    + apply nth_error_None in E.
      pose proof (Nat.mod_upper_bound i 4 ltac:(lia)). lia.
Qed.

(** With a key of four bytes [umask] returns the zero bytes of the buffer
    it made followed by the unmasked payload: twice the length of the
    payload. *)
Lemma umask_key4 (f : Frame) :
  length (MaskingKey f) = 4%nat ->
  umask f
  = Ret (repeat x00 (length (ApplicationData f))
           ++ xor_stream (MaskingKey f) 0 (ApplicationData f), None).
Proof.
  intros Hm. unfold umask. rewrite umask_loop_key4 by exact Hm.
  reflexivity.
Qed.

Lemma umask_key4_length (f : Frame) (out : list byte) (e : option error) :
  length (MaskingKey f) = 4%nat ->
  umask f = Ret (out, e) ->
  length out = (2 * length (ApplicationData f))%nat.
Proof.
  intros Hm H. rewrite umask_key4 in H by exact Hm.
  injection H as <- _.
  rewrite length_app, repeat_length, xor_stream_length. lia.
Qed.

(** Without a key the first byte of the payload makes [umask] panic. *)
Lemma umask_no_key (f : Frame) :
  MaskingKey f = [] -> ApplicationData f <> [] ->
  umask f = Panic IndexOutOfRange.
Proof.
  intros Hk Hp. unfold umask. rewrite Hk.
  destruct (ApplicationData f) as [|b rest]; [congruence|]. reflexivity.
Qed.

(** ** [umask], at a payload of one byte *)

(** C2: the code at the payload [0x41] and the key [01 02 03 04].  One
    application of [umask] returns two bytes, the zero byte of the buffer
    and the byte [0x41 xor 0x01]; a second application, to that result,
    returns four bytes.  Neither result has the length of its input, and
    the second is not the payload.  [Receive] hands out the two bytes
    for the masked frame [81 81 01 02 03 04 41] of a client. *)
Theorem umask_twice_at_one_byte :
  umask (maskedFrame [x01; x02; x03; x04] [x41]) = Ret ([x00; x40], None)
  /\ umask (maskedFrame [x01; x02; x03; x04] [x00; x40])
     = Ret ([x00; x00; x01; x42], None)
  /\ Receive 1 (connection TextWebsocket 1
                  [x81; x81; x01; x02; x03; x04; x41])
     = Ret (([x00; x40], None), connection TextWebsocket 1 []).
Proof.
  repeat split; reflexivity.
Qed.

(** ** [fragment] *)

(** Copying into a fresh buffer that the source can fill. *)
Lemma copy_zeros (k : nat) (src : list byte) :
  (k <= length src)%nat ->
  copy (repeat x00 k) src = (firstn k src, Z.of_nat k).
Proof.
  intros Hk. unfold copy. rewrite repeat_length.
  rewrite Nat.min_l by exact Hk.
  rewrite skipn_all2 by (rewrite repeat_length; lia).
  rewrite app_nil_r. reflexivity.
Qed.

(** For the length of a slice the chain of [if]s always finds a field:
    its early [return] is not reachable. *)
Lemma lengthFields_inl (frame : Frame) (n : Z) :
  0 <= n <= MaxInt ->
  exists frame',
    lengthFields frame n = inl frame'
    /\ FIN frame' = FIN frame
    /\ FrameOpcode frame' = FrameOpcode frame
    /\ ApplicationData frame' = ApplicationData frame.
Proof.
  intros Hn. unfold lengthFields.
  destruct (n <? 126) eqn:E1; [eexists; repeat split|].
  destruct ((126 <=? uint16 n) && (uint16 n <? MaxUint16)) eqn:E2;
    [eexists; repeat split|].
  destruct ((MaxUint16 <=? uint64 n) && (uint64 n <? MaxUint64)) eqn:E3;
    [eexists; repeat split|].
  exfalso.
  apply Z.ltb_ge in E1.
  unfold uint16, uint64, MaxUint16, MaxUint64, MaxInt in *.
  rewrite (Z.mod_small n (2 ^ 64)) in E3 by lia.
  pose proof (Z.div_mod n (2 ^ 16) ltac:(lia)) as D.
  pose proof (Z.mod_pos_bound n (2 ^ 16) ltac:(lia)) as B.
  assert (0 <= n / 2 ^ 16) by (apply Z.div_pos; lia).
  apply andb_false_iff in E2. apply andb_false_iff in E3.
  destruct E3 as [E3|E3]; [apply Z.leb_gt in E3|apply Z.ltb_ge in E3; lia].
  destruct E2 as [E2|E2]; [apply Z.leb_gt in E2|apply Z.ltb_ge in E2]; lia.
Qed.

Section Fragment.

Variable ws : Websocket.
Hypothesis limit_pos : 1 <= framingLimit ws.

(** One iteration of the loop on a reader that still holds bytes: the
    chunk is the next [min(framingLimit, payloadLength)] bytes. *)
Lemma fragment_loop_step (fuel : nat) (rest : list byte) (frames : list Frame) :
  rest <> [] -> len rest <= MaxInt ->
  let k := Z.to_nat (Z.min (framingLimit ws) (len rest)) in
  fragment_loop (S fuel) ws rest (len rest) frames
  = match lengthFields (chunkFrame (firstn k rest)) (len (firstn k rest)) with
    | inr e => Ret (frames, Some e)
    | inl frame =>
      fragment_loop fuel ws (skipn k rest) (len (skipn k rest))
                    (frames ++ [frame])
    end.
Proof.
  intros Hne Hmax k. cbn [fragment_loop].
  assert (Hlen : 1 <= len rest).
  { unfold len. destruct rest; [congruence|]. cbn [length]. lia. }
  assert (Hk : (if framingLimit ws <? len rest then framingLimit ws
                else len rest) = Z.of_nat k).
  { subst k. destruct (Z.ltb_spec (framingLimit ws) (len rest)).
    - rewrite Z.min_l by lia. lia.
    - rewrite Z.min_r by lia. lia. }
  rewrite Hk.
  assert (Hkl : (k <= length rest)%nat).
  { subst k. unfold len in *. lia. }
  unfold make_bytes.
  replace ((Z.of_nat k <? 0) || (MaxInt <? Z.of_nat k)) with false.
  2:{ symmetry. apply orb_false_iff. split.
      - apply Z.ltb_ge. lia.
      - apply Z.ltb_ge. unfold len in *. lia. }
  cbn [bind]. rewrite Nat2Z.id.
  unfold bytes.Read. destruct rest as [|b rest']; [congruence|].
  rewrite copy_zeros by exact Hkl. rewrite Nat2Z.id.
  fold (chunkFrame (firstn k (b :: rest'))).
  destruct (lengthFields _ _) as [frame|e]; [|reflexivity].
  f_equal. unfold len. rewrite length_skipn. lia.
Qed.

(** With a limit of at least 1 the loop ends by [break]; the frames it
    adds hold, in order, the bytes that were left to read. *)
Lemma fragment_loop_spec (fuel : nat) :
  forall (rest : list byte) (frames : list Frame),
    len rest <= MaxInt -> (length rest < fuel)%nat ->
    exists fs,
      fragment_loop fuel ws rest (len rest) frames = Ret (frames ++ fs, None)
      /\ Forall (chunkOf (framingLimit ws)) fs
      /\ concat (map ApplicationData fs) = rest
      /\ (rest <> [] -> fs <> []).
Proof.
  induction fuel as [|fuel IH]; intros rest frames Hmax Hfuel; [lia|].
  destruct rest as [|b rest'] eqn:Erest.
  - exists []. cbn [fragment_loop len length Z.of_nat].
    replace (framingLimit ws <? 0) with false by (symmetry; apply Z.ltb_ge; lia).
    cbn. rewrite app_nil_r. repeat split; auto.
  - rewrite <- Erest in *.
    assert (Hne : rest <> []) by (rewrite Erest; discriminate).
    rewrite fragment_loop_step by assumption.
    set (k := Z.to_nat (Z.min (framingLimit ws) (len rest))).
    assert (Hlen : 1 <= len rest).
    { unfold len. rewrite Erest. cbn [length]. lia. }
    assert (Hk1 : (1 <= k)%nat) by (subst k; lia).
    assert (Hkl : (k <= length rest)%nat) by (subst k; unfold len in *; lia).
    assert (Hfl : length (firstn k rest) = k) by (rewrite length_firstn; lia).
    destruct (lengthFields_inl (chunkFrame (firstn k rest))
                (len (firstn k rest))) as (frame & Hlf & HF & HO & HA).
    { unfold len in *. rewrite Hfl. lia. }
    rewrite Hlf.
    destruct (IH (skipn k rest) (frames ++ [frame]))
      as (fs & Hrun & Hall & Hcat & _).
    { unfold len in *. rewrite length_skipn. lia. }
    { rewrite length_skipn. lia. }
    exists (frame :: fs). rewrite Hrun, <- app_assoc. cbn [app].
    repeat split; auto.
    + constructor; [|exact Hall].
      unfold chunkOf. rewrite HF, HO, HA.
      change (ApplicationData (chunkFrame (firstn k rest)))
        with (firstn k rest).
      assert (Hlk : len (firstn k rest) = Z.of_nat k)
        by (unfold len; rewrite Hfl; reflexivity).
      repeat split; auto; try (rewrite Hlk; subst k; unfold len in *; lia).
    + cbn [map concat]. rewrite HA, Hcat. cbn.
      apply firstn_skipn.
    + discriminate.
Qed.

End Fragment.

(** Assignments through an index. *)

Lemma update_length {A : Type} (g : A -> A) (l : list A) (i : nat) :
  length (update i g l) = length l.
Proof.
  revert i. induction l as [|x l IH]; intros [|i]; cbn; auto.
Qed.

Lemma nth_error_update {A : Type} (g : A -> A) (l : list A) (i j : nat) :
  nth_error (update i g l) j
  = if Nat.eqb i j then option_map g (nth_error l j) else nth_error l j.
Proof.
  revert i j. induction l as [|x l IH]; intros [|i] [|j]; cbn; auto.
  - destruct (Nat.eqb i j); reflexivity.
Qed.

Lemma concat_map_update (g : Frame -> Frame) (l : list Frame) (i : nat) :
  (forall f, ApplicationData (g f) = ApplicationData f) ->
  concat (map ApplicationData (update i g l)) = concat (map ApplicationData l).
Proof.
  intros Hg. revert i. induction l as [|x l IH]; intros [|i]; cbn; auto.
  - rewrite Hg. reflexivity.
  - rewrite IH. reflexivity.
Qed.

(** With a limit of zero and a payload that is not empty the loop never
    ends: every iteration reads a chunk of no bytes. *)
Lemma fragment_loop_zero_limit (ws : Websocket) (rest : list byte) :
  framingLimit ws = 0 -> rest <> [] ->
  forall (fuel : nat) (frames : list Frame),
    fragment_loop fuel ws rest (len rest) frames = OutOfFuel.
Proof.
  intros Hl Hne fuel. induction fuel as [|fuel IH]; intros frames.
  - reflexivity.
  - cbn [fragment_loop]. rewrite Hl.
    destruct rest as [|b rest']; [congruence|].
    replace (0 <? len (b :: rest')) with true
      by (symmetry; apply Z.ltb_lt; unfold len; cbn [length]; lia).
    cbn -[fragment_loop len]. rewrite Z.sub_0_r. apply IH.
Qed.

Lemma fragment_zero_limit (ws : Websocket) (data : list byte) :
  framingLimit ws = 0 -> data <> [] ->
  forall fuel : nat, fragment fuel ws data = OutOfFuel.
Proof.
  intros Hl Hne fuel. unfold fragment, bytes.NewReader.
  rewrite fragment_loop_zero_limit by assumption. reflexivity.
Qed.

(** With a negative limit the first [make] panics. *)
Lemma fragment_negative_limit (ws : Websocket) (data : list byte) (fuel : nat) :
  framingLimit ws < 0 ->
  fragment (S fuel) ws data = Panic MakeSliceLenOutOfRange.
Proof.
  intros Hl. unfold fragment. cbn [fragment_loop].
  replace (framingLimit ws <? len data) with true
    by (symmetry; apply Z.ltb_lt; unfold len; lia).
  unfold make_bytes.
  replace (framingLimit ws <? 0) with true by (symmetry; apply Z.ltb_lt; lia).
  reflexivity.
Qed.

(** What [fragment] returns for a limit of at least 1 and a connection
    of type text or binary. *)
Lemma fragment_spec (ws : Websocket) (data : list byte) (fuel : nat) :
  1 <= framingLimit ws ->
  t ws = TextWebsocket \/ t ws = BinaryWebsocket ->
  len data <= MaxInt -> (length data < fuel)%nat ->
  exists fs,
    fragment fuel ws data
    = Ret (if 0 <? len fs then
             update 0 (fun f => set_Opcode f (messageOpcode (t ws)))
                    (update (length fs - 1) (fun f => set_FIN f true) fs)
           else fs, None)
    /\ Forall (chunkOf (framingLimit ws)) fs
    /\ concat (map ApplicationData fs) = data
    /\ (data <> [] -> fs <> []).
Proof.
  intros Hl Ht Hmax Hfuel.
  destruct (fragment_loop_spec ws Hl fuel data [] Hmax Hfuel)
    as (fs & Hrun & Hall & Hcat & Hne).
  exists fs. split; [|auto].
  unfold fragment, bytes.NewReader. rewrite Hrun. cbn [bind app].
  destruct (0 <? len fs); [|reflexivity].
  unfold messageOpcode.
  destruct Ht as [-> | ->]; reflexivity.
Qed.

Lemma messageOpcode_not_continuation (ty : WebsocketType) :
  messageOpcode ty <> ContinuationFrame.
Proof.
  unfold messageOpcode. destruct (String.eqb ty TextWebsocket); discriminate.
Qed.

(** C6: for a payload that is not empty, a limit of at least 1 and a
    connection of type text or binary, [fragment] returns (with fuel
    for one iteration more than the payload has bytes) at least one
    frame and no error; a frame has [FIN] set exactly when it is the
    last one, carries the opcode of the message type exactly when it is
    the first one, and carries the continuation opcode everywhere
    else. *)
Theorem fragment_fin_and_opcode_placement
    (ws : Websocket) (data : list byte) (fuel : nat) :
  1 <= framingLimit ws ->
  t ws = TextWebsocket \/ t ws = BinaryWebsocket ->
  data <> [] -> len data <= MaxInt -> (length data < fuel)%nat ->
  exists frames,
    fragment fuel ws data = Ret (frames, None)
    /\ (1 <= length frames)%nat
    /\ forall (i : nat) (f : Frame),
         nth_error frames i = Some f ->
         (FIN f = true <-> i = (length frames - 1)%nat)
         /\ (FrameOpcode f = messageOpcode (t ws) <-> i = 0%nat)
         /\ (i <> 0%nat -> FrameOpcode f = ContinuationFrame).
Proof.
  intros Hl Ht Hne Hmax Hfuel.
  destruct (fragment_spec ws data fuel Hl Ht Hmax Hfuel)
    as (fs & Hrun & Hall & _ & Hfs).
  specialize (Hfs Hne).
  assert (Hlen : (1 <= length fs)%nat).
  { destruct fs; [congruence|]. cbn [length]. lia. }
  replace (0 <? len fs) with true in Hrun
    by (symmetry; apply Z.ltb_lt; unfold len; lia).
  eexists. split; [exact Hrun|].
  rewrite !update_length. split; [exact Hlen|].
  intros i f Hi. rewrite !nth_error_update in Hi.
  destruct (nth_error fs i) as [f0|] eqn:E0.
  2:{ destruct (Nat.eqb 0 i), (Nat.eqb (length fs - 1) i); discriminate. }
  rewrite Forall_forall in Hall.
  destruct (Hall f0 (nth_error_In _ _ E0)) as (HF & HO & _).
  pose proof (messageOpcode_not_continuation (t ws)) as Hmo.
  destruct (Nat.eqb_spec 0 i) as [H0|H0];
    destruct (Nat.eqb_spec (length fs - 1) i) as [H1|H1];
    cbn in Hi; injection Hi as <-; cbn; rewrite ?HF, ?HO;
    repeat split; intros; try congruence; try lia.
Qed.

Lemma fragment_fin_and_opcode_placement_witness :
  exists frames,
    fragment 4 (connection TextWebsocket 2 []) [x41; x42; x43]
    = Ret (frames, None)
    /\ (1 <= length frames)%nat
    /\ forall (i : nat) (f : Frame),
         nth_error frames i = Some f ->
         (FIN f = true <-> i = (length frames - 1)%nat)
         /\ (FrameOpcode f = messageOpcode TextWebsocket <-> i = 0%nat)
         /\ (i <> 0%nat -> FrameOpcode f = ContinuationFrame).
Proof.
  apply (fragment_fin_and_opcode_placement
           (connection TextWebsocket 2 []) [x41; x42; x43] 4).
  - cbn. lia.
  - left. reflexivity.
  - discriminate.
  - vm_compute. discriminate.
  - cbn. lia.
Defined.

(** ** [fragment] on an empty payload *)

(** C5 (counterexample): on a text connection with a limit of 1,
    [fragment] returns no frame for the empty payload, with any fuel that
    lets it return; it never returns exactly one frame. *)
Lemma fragment_empty_payload_no_frame :
  fragment 1 (connection TextWebsocket 1 []) [] = Ret ([], None)
  /\ forall (fuel : nat) (f : Frame) (err : option error),
       fragment fuel (connection TextWebsocket 1 []) [] <> Ret ([f], err).
Proof.
  split; [reflexivity|].
  intros [|fuel] f err; cbn; discriminate.
Qed.

(** C5 (amended): for a limit that is not negative, [fragment] returns
    an empty list of frames and no error for the empty payload: the first
    read finds the end of the data and the loop is left before any frame
    is made; [Send] then writes nothing. *)
Theorem fragment_empty_payload (ws : Websocket) (fuel : nat) :
  0 <= framingLimit ws ->
  fragment (S fuel) ws [] = Ret ([], None)
  /\ Send (S fuel) ws [] = Ret (None, ws).
Proof.
  intros Hl.
  assert (H : fragment (S fuel) ws [] = Ret ([], None)).
  { unfold fragment. cbn [fragment_loop bytes.NewReader len length Z.of_nat].
    replace (framingLimit ws <? 0) with false
      by (symmetry; apply Z.ltb_ge; exact Hl).
    reflexivity. }
  split; [exact H|]. unfold Send. rewrite H. reflexivity.
Qed.

Lemma fragment_empty_payload_witness :
  fragment 1 (connection BinaryWebsocket 20 []) [] = Ret ([], None)
  /\ Send 1 (connection BinaryWebsocket 20 []) []
     = Ret (None, connection BinaryWebsocket 20 []).
Proof.
  apply (fragment_empty_payload (connection BinaryWebsocket 20 []) 0).
  cbn. discriminate.
Defined.

(** ** [fragment] at the boundary lengths *)

(** A chunk of 125 bytes is sent in the small form, chunks of 126 and of
    65534 bytes in the 16-bit form, a chunk of 65536 bytes in the 64-bit
    form; [readFrame] decodes the length from the bytes sent into the
    field [fragment] had put it in. *)
Lemma boundary_lengths_that_agree :
  (fragmentSummary 2 (connection TextWebsocket 125 []) (zeros 125)
   = Ret ([(true, TextFrame, (Some 125, None, None), 125)], None)
   /\ decodeSentSummary 2 TextWebsocket 125 (zeros 125)
      = Ret (Some (true, TextFrame, (Some 125, None, None), 125), None))
  /\ (fragmentSummary 2 (connection TextWebsocket 126 []) (zeros 126)
      = Ret ([(true, TextFrame, (None, Some 126, None), 126)], None)
      /\ decodeSentSummary 2 TextWebsocket 126 (zeros 126)
         = Ret (Some (true, TextFrame, (None, Some 126, None), 126), None))
  /\ (fragmentSummary 2 (connection TextWebsocket 65534 []) (zeros 65534)
      = Ret ([(true, TextFrame, (None, Some 65534, None), 65534)], None)
      /\ decodeSentSummary 2 TextWebsocket 65534 (zeros 65534)
         = Ret (Some (true, TextFrame, (None, Some 65534, None), 65534), None))
  /\ (fragmentSummary 2 (connection TextWebsocket 65536 []) (zeros 65536)
      = Ret ([(true, TextFrame, (None, None, Some 65536), 65536)], None)
      /\ decodeSentSummary 2 TextWebsocket 65536 (zeros 65536)
         = Ret (Some (true, TextFrame, (None, None, Some 65536), 65536), None)).
Proof.
  repeat split; vm_compute; reflexivity.
Qed.

(** C3: the code at a payload of exactly 65535 bytes, sent in one chunk.
    [fragment] records the length in the 64-bit field, not in the 16-bit
    one; [writeFrame] then chooses the tag 126 and reads the 16-bit field,
    which is [nil]: [Send] panics and nothing is encoded. *)
Theorem boundary_length_65535 :
  fragmentSummary 2 (connection TextWebsocket 65535 []) (zeros 65535)
  = Ret ([(true, TextFrame, (None, None, Some 65535), 65535)], None)
  /\ Send 2 (connection TextWebsocket 65535 []) (zeros 65535)
     = Panic NilDereference.
Proof.
  split; vm_compute; reflexivity.
Qed.

(** ** [readFrame] *)

(** The sixteen values of the low four bits all have a case in the
    [switch]. *)
Lemma opcode_of_bits_total (b : byte) :
  exists op, opcode_of_bits (Z.land (byte_to_Z b) 0x0f) = Some op.
Proof.
  destruct b; vm_compute; eexists; reflexivity.
Qed.

(** The low seven bits are at most 125, or 126, or 127. *)
Lemma length_tag_cases (b : byte) :
  let p := Z.land (byte_to_Z b) 0x7f in
  (0 <=? p) && (p <=? 125) = true
  \/ ((0 <=? p) && (p <=? 125) = false /\ p = 126)
  \/ ((0 <=? p) && (p <=? 125) = false /\ p = 127).
Proof.
  destruct b; vm_compute; auto.
Qed.

Lemma bufio_Read_error (r : bufio.Reader) (p : list byte) :
  snd (fst (bufio.Read r p)) = None
  \/ exists io, snd (fst (bufio.Read r p)) = Some (IO io).
Proof.
  unfold bufio.Read. destruct p; [left; reflexivity|].
  destruct (bufio.pending r); [right; eexists; reflexivity|].
  destruct (copy _ _). left; reflexivity.
Qed.

(** The only errors [readFrame] returns are [BadRequest] and the errors
    of the reader. *)
Lemma readFrame_error_kinds (ws : Websocket) :
  forall fr e ws',
    readFrame ws = Ret ((fr, e), ws') ->
    e = None \/ e = Some BadRequest \/ exists io, e = Some (IO io).
Proof.
  intros fr e ws'. unfold readFrame, bufio.ReadByte.
  destruct (bufio.pending (reader ws)) as [|b1 pend1].
  { intros H. injection H as <- <- <-. right. right. eexists; reflexivity. }
  destruct (opcode_of_bits_total b1) as [op ->].
  cbn [bufio.pending bufio.final].
  destruct pend1 as [|b2 pend2].
  { intros H. injection H as <- <- <-. right. right. eexists; reflexivity. }
  set (f1 := set_Opcode _ op).
  set (f2 := if Z.land (byte_to_Z b2) 128 =? 128 then set_Mask f1 true else f1).
  set (r2 := {| bufio.pending := pend2; bufio.final := bufio.final (reader ws) |}).
  clearbody f1 f2 r2.
  assert (Tail : forall (f : Frame) (r : bufio.Reader),
    match
      (if Mask f then
         let '((maskingKey, err), r0) := bufio.Read r (repeat x00 4) in
         match err with
         | Some _ => (inr BadRequest, r0)
         | None => (inl (set_MaskingKey f maskingKey), r0)
         end
       else (inl f, r))
    with
    | (inl f0, r0) =>
      payload <- make_bytes (PayloadLength f0) ;;
      let '((payload0, err), r1) := bufio.Read r0 payload in
      match err with
      | Some _ => Ret ((None, Some BadRequest), with_reader ws r1)
      | None =>
        Ret ((Some (set_ApplicationData f0 payload0), None), with_reader ws r1)
      end
    | (inr e0, r0) => Ret ((None, Some e0), with_reader ws r0)
    end = Ret ((fr, e), ws') ->
    e = None \/ e = Some BadRequest \/ exists io, e = Some (IO io)).
  { intros f r.
    assert (Payload : forall (f0 : Frame) (r0 : bufio.Reader),
      (payload <- make_bytes (PayloadLength f0) ;;
       let '((payload0, err), r1) := bufio.Read r0 payload in
       match err with
       | Some _ => Ret ((None, Some BadRequest), with_reader ws r1)
       | None =>
         Ret ((Some (set_ApplicationData f0 payload0), None),
              with_reader ws r1)
       end) = Ret ((fr, e), ws') ->
      e = None \/ e = Some BadRequest \/ exists io, e = Some (IO io)).
    { intros f0 r0. destruct (make_bytes (PayloadLength f0)) as [payload| |];
        cbn [bind]; try discriminate.
      destruct (bufio.Read r0 payload) as [[payload0 [e1|]] r1];
        intros H; injection H as <- <- <-; auto. }
    destruct (Mask f); [|apply Payload].
    destruct (bufio.Read r (repeat x00 4)) as [[maskingKey [e1|]] r0];
      [|apply Payload].
    intros H; injection H as <- <- <-; auto. }
  destruct (length_tag_cases b2) as [H|[[H E]|[H E]]]; cbv zeta in *;
    rewrite H; try rewrite E; cbn [Z.eqb Pos.eqb].
  - apply Tail.
  - pose proof (bufio_Read_error r2 (repeat x00 2)) as HR.
    destruct (bufio.Read r2 (repeat x00 2)) as [[length [e1|]] r];
      [|apply Tail].
    cbn in HR. destruct HR as [HR|[io HR]]; [discriminate|].
    intros H'; injection H' as <- <- <-. right. right. exists io.
    exact HR.
  - pose proof (bufio_Read_error r2 (repeat x00 8)) as HR.
    destruct (bufio.Read r2 (repeat x00 8)) as [[length [e1|]] r];
      [|apply Tail].
    cbn in HR. destruct HR as [HR|[io HR]]; [discriminate|].
    intros H'; injection H' as <- <- <-. right. right. exists io.
    exact HR.
Qed.

(** C9: [readFrame] never returns [InvalidOpcode] and never returns
    [InvalidLength], whatever the connection holds: the [default] branch
    of the opcode [switch] and the last [else] of the length chain are
    not reachable. *)
Theorem readFrame_never_InvalidOpcode_nor_InvalidLength
    (ws ws' : Websocket) (fr : option Frame) :
  readFrame ws <> Ret ((fr, Some InvalidOpcode), ws')
  /\ readFrame ws <> Ret ((fr, Some InvalidLength), ws').
Proof.
  split; intros H; apply readFrame_error_kinds in H;
    destruct H as [H|[H|[io H]]]; discriminate.
Qed.

(** ** [Receive] *)

(** The loop goes through the frames that are not final. *)
Lemma Receive_loop_accumulated ws message ws2 message2 n :
  accumulated ws message ws2 message2 n ->
  forall fuel : nat,
    Receive_loop (n + fuel) ws message = Receive_loop fuel ws2 message2.
Proof.
  induction 1 as [|ws ws1 ws2 frame message umasked message2 n Hr Hu Hf _ IH];
    intros fuel.
  - reflexivity.
  - cbn [Nat.add Receive_loop]. rewrite Hr. cbn [bind]. rewrite Hu.
    cbn [bind]. rewrite Hf. apply IH.
Qed.

(** C10: when the receive loop has accumulated [message] from [n]
    frames that were not final and the next [readFrame] fails with [e],
    [Receive] returns [message] together with [e]: the bytes gathered
    so far, not an empty result. *)
Theorem Receive_error_returns_accumulated_message
    (ws ws2 ws3 : Websocket) (message : list byte) (n fuel : nat)
    (fr : option Frame) (e : error) :
  accumulated ws [] ws2 message n ->
  readFrame ws2 = Ret ((fr, Some e), ws3) ->
  (n < fuel)%nat ->
  Receive fuel ws = Ret ((message, Some e), ws3).
Proof.
  intros Hacc Herr Hfuel. unfold Receive.
  replace fuel with (n + S (fuel - n - 1))%nat by lia.
  rewrite (Receive_loop_accumulated _ _ _ _ _ Hacc).
  cbn [Receive_loop]. rewrite Herr. reflexivity.
Qed.

Lemma Receive_error_returns_accumulated_message_witness :
  Receive 2 (connection TextWebsocket 1 [x01; x81; x01; x02; x03; x04; x41])
  = Ret (([x00; x40], Some (IO EOF)), connection TextWebsocket 1 []).
Proof.
  apply (@Receive_error_returns_accumulated_message
           _ (connection TextWebsocket 1 []) _ _ 1%nat 2%nat None (IO EOF)).
  - eapply accumulated_frame.
    + reflexivity.
    + reflexivity.
    + reflexivity.
    + apply accumulated_none.
  - reflexivity.
  - apply le_n.
Defined.

(** ** [writeFrame] *)

Lemma PayloadLength_range (f : Frame) : 0 <= PayloadLength f < 2 ^ 64.
Proof.
  unfold PayloadLength, uint64.
  destruct (payloadLengthInt f); [apply Z.mod_pos_bound; lia|].
  destruct (payloadLengthInt16 f); [apply Z.mod_pos_bound; lia|].
  destruct (payloadLengthInt64 f); [apply Z.mod_pos_bound; lia|lia].
Qed.

Lemma lengthTag_range (f : Frame) : 0 <= lengthTag f <= 127.
Proof.
  unfold lengthTag. pose proof (PayloadLength_range f).
  destruct (Z.leb_spec (PayloadLength f) 125); [lia|].
  destruct (PayloadLength f <=? MaxUint16); lia.
Qed.

(** On a writer that accepts data, [writeFrame] writes [wire frame], or
    panics when the length field it reads is [nil]. *)
Lemma writeFrame_wire (ws : Websocket) (frame : Frame) :
  bufio.werr (writer ws) = None ->
  bits_of_opcode (FrameOpcode frame) <> None ->
  writeFrame ws frame
  = if ((lengthTag frame =? 126)
        && match payloadLengthInt16 frame with Some _ => false | None => true end)
       || ((lengthTag frame =? 127)
           && match payloadLengthInt64 frame with Some _ => false | None => true end)
    then Panic NilDereference
    else Ret (None,
              with_writer ws
                {| bufio.written := bufio.written (writer ws) ++ wire frame;
                   bufio.werr := None |}).
Proof.
  intros Hw Hop. unfold writeFrame, wire.
  destruct (bits_of_opcode (FrameOpcode frame)) as [bits|]; [|congruence].
  unfold bufio.WriteByte, bufio.Write at 1. rewrite Hw.
  pose proof (PayloadLength_range frame) as HR.
  replace (0 <=? PayloadLength frame) with true
    by (symmetry; apply Z.leb_le; lia).
  cbn [andb].
  assert (Hres :
    (if PayloadLength frame <=? 125 then inl (PayloadLength frame)
     else if PayloadLength frame <=? MaxUint16 then inl 126
     else if PayloadLength frame <=? MaxUint64 then inl 127
     else @inr Z error InvalidLength)
    = inl (lengthTag frame)).
  { unfold lengthTag.
    destruct (PayloadLength frame <=? 125); [reflexivity|].
    destruct (PayloadLength frame <=? MaxUint16); [reflexivity|].
    replace (PayloadLength frame <=? MaxUint64) with true; [reflexivity|].
    symmetry. apply Z.leb_le. unfold MaxUint64. lia. }
  rewrite Hres. clear Hres.
  unfold bufio.Write at 1. cbn [bufio.werr bufio.written].
  pose proof (lengthTag_range frame) as HT.
  destruct (Z.eqb_spec (lengthTag frame) 126) as [E6|N6].
  - rewrite E6. cbn [Z.eqb Pos.eqb andb orb].
    destruct (payloadLengthInt16 frame) as [v|]; [|reflexivity].
    cbn. rewrite <- !app_assoc. reflexivity.
  - destruct (Z.eqb_spec (lengthTag frame) 127) as [E7|N7].
    + cbn [andb orb].
      destruct (payloadLengthInt64 frame) as [v|]; [|reflexivity].
      cbn. rewrite <- !app_assoc. reflexivity.
    + cbn. rewrite <- !app_assoc. reflexivity.
Qed.

(** ** [readFrame] on what [writeFrame] wrote *)

(** The two bytes of the header are decoded to what was encoded. *)
Lemma header_byte (fin : bool) (o : Opcode) (bits : Z) :
  bits_of_opcode o = Some bits ->
  let h := byte_to_Z (byte_of_Z (Z.lor (if fin then 0x80 else 0x00) bits)) in
  (Z.land h 0x80 =? 0x80) = fin /\ opcode_of_bits (Z.land h 0x0f) = Some o.
Proof.
  unfold bits_of_opcode.
  destruct (String.eqb_spec o ContinuationFrame) as [->|_];
    [intros H; injection H as <-; destruct fin; split; reflexivity|].
  destruct (String.eqb_spec o TextFrame) as [->|_];
    [intros H; injection H as <-; destruct fin; split; reflexivity|].
  destruct (String.eqb_spec o BinaryFrame) as [->|_];
    [intros H; injection H as <-; destruct fin; split; reflexivity|].
  destruct (String.eqb_spec o ConnectionClose) as [->|_];
    [intros H; injection H as <-; destruct fin; split; reflexivity|].
  destruct (String.eqb_spec o Ping) as [->|_];
    [intros H; injection H as <-; destruct fin; split; reflexivity|].
  destruct (String.eqb_spec o Pong) as [->|_];
    [intros H; injection H as <-; destruct fin; split; reflexivity|].
  discriminate.
Qed.

Lemma low7_byte (b : byte) :
  (byte_to_Z b <=? 127) = true ->
  (Z.land (byte_to_Z b) 0x80 =? 0x80) = false
  /\ Z.land (byte_to_Z b) 0x7f = byte_to_Z b.
Proof.
  destruct b; vm_compute; intros H; try discriminate H; split; reflexivity.
Qed.

Lemma tag_byte (tag : Z) :
  0 <= tag <= 127 ->
  let h := byte_to_Z (byte_of_Z tag) in
  (Z.land h 0x80 =? 0x80) = false /\ Z.land h 0x7f = tag.
Proof.
  intros Ht h.
  assert (Hh : h = tag).
  { subst h. rewrite byte_to_of_Z. apply Z.mod_small. lia. }
  destruct (low7_byte (byte_of_Z tag)) as [H1 H2].
  { fold h. rewrite Hh. apply Z.leb_le. lia. }
  fold h in H1, H2. rewrite H1, H2. auto.
Qed.

Lemma copy_zeros_app (n : nat) (data tail : list byte) :
  (n <= length data)%nat ->
  copy (repeat x00 n) (data ++ tail) = (firstn n data, Z.of_nat n).
Proof.
  intros Hn. rewrite copy_zeros by (rewrite length_app; lia).
  rewrite firstn_app. replace (n - length data)%nat with 0%nat by lia.
  cbn [firstn]. rewrite app_nil_r. reflexivity.
Qed.

(** Reading the payload: [n] bytes are asked for and the stream holds at
    least as many. *)
Lemma bufio_Read_payload (n : nat) (data tail : list byte) (e : io_error) :
  (n <= length data)%nat ->
  bufio.Read {| bufio.pending := data ++ tail; bufio.final := e |}
             (repeat x00 n)
  = ((firstn n data, None),
     {| bufio.pending := skipn n data ++ tail; bufio.final := e |}).
Proof.
  intros Hn. destruct n as [|n].
  - reflexivity.
  - unfold bufio.Read. cbn [repeat bufio.pending bufio.final].
    destruct (data ++ tail) as [|b l] eqn:E.
    + apply (f_equal (@length byte)) in E. rewrite length_app in E.
      cbn [length] in *. lia.
    + rewrite <- E. change (x00 :: repeat x00 n) with (repeat x00 (S n)).
      rewrite copy_zeros_app by exact Hn. rewrite Nat2Z.id.
      rewrite skipn_app. replace (S n - length data)%nat with 0%nat by lia.
      reflexivity.
Qed.

(** [readFrame] on the bytes of a frame the server wrote: it returns the
    frame, with as many bytes of data as the length field announces, and
    leaves the rest of the stream. *)
Lemma readFrame_wire (ws : Websocket) (f : Frame) (tail : list byte)
    (e : io_error) :
  plain f -> tagged f ->
  PayloadLength f <= len (ApplicationData f) ->
  reader ws = {| bufio.pending := wire f ++ tail; bufio.final := e |} ->
  readFrame ws
  = Ret ((Some (set_ApplicationData f
                  (firstn (Z.to_nat (PayloadLength f)) (ApplicationData f))),
          None),
         with_reader ws
           {| bufio.pending :=
                skipn (Z.to_nat (PayloadLength f)) (ApplicationData f) ++ tail;
              bufio.final := e |}).
Proof.
  intros (R1 & R2 & R3 & HM & HK & HE & Hop) Ht Hlen Hr.
  destruct (bits_of_opcode (FrameOpcode f)) as [bits|] eqn:Hbits;
    [clear Hop|congruence].
  destruct (header_byte (FIN f) _ _ Hbits) as [Hfin Hopc].
  destruct (tag_byte (lengthTag f) (lengthTag_range f)) as [Hmask Htag].
  cbv zeta in *.
  unfold readFrame. rewrite Hr. unfold wire. rewrite Hbits.
  cbn [app bufio.ReadByte bufio.pending bufio.final].
  rewrite Hfin, Hopc, Hmask, Htag.
  pose proof (PayloadLength_range f) as HR.
  assert (Hmake : make_bytes (PayloadLength f)
                  = Ret (repeat x00 (Z.to_nat (PayloadLength f)))).
  { unfold make_bytes.
    replace ((PayloadLength f <? 0) || (MaxInt <? PayloadLength f)) with false;
      [reflexivity|].
    symmetry. apply orb_false_iff. split; [apply Z.ltb_ge; lia|].
    apply Z.ltb_ge. destruct Ht as [H|[H|H]]; unfold MaxInt in *; lia. }
  assert (Hn : (Z.to_nat (PayloadLength f) <= length (ApplicationData f))%nat)
    by (unfold len in Hlen; lia).
  unfold tagged in Ht. cbv zeta in Ht.
  destruct Ht as [(Hn1 & F1 & F2 & F3)|[(Hn2 & F1 & F2 & F3)|(Hn3 & F1 & F2 & F3)]].
  - assert (HT : lengthTag f = PayloadLength f).
    { unfold lengthTag.
      destruct (Z.leb_spec (PayloadLength f) 125); [reflexivity|lia]. }
    rewrite HT.
    replace ((0 <=? PayloadLength f) && (PayloadLength f <=? 125)) with true
      by (symmetry; apply andb_true_iff; split; apply Z.leb_le; lia).
    replace (PayloadLength f =? 126) with false
      by (symmetry; apply Z.eqb_neq; lia).
    replace (PayloadLength f =? 127) with false
      by (symmetry; apply Z.eqb_neq; lia).
    cbn [app].
    replace (Mask _) with false by (destruct (FIN f); reflexivity).
    replace (PayloadLength (set_payloadLengthInt _ _)) with (PayloadLength f).
    2:{ unfold PayloadLength at 2. cbn [payloadLengthInt set_payloadLengthInt].
        unfold uint64. rewrite Z.mod_small by lia. reflexivity. }
    rewrite Hmake. cbn [bind].
    rewrite bufio_Read_payload by exact Hn.
    do 3 f_equal.
    clear - R1 R2 R3 HM HK HE F1 F2 F3. revert F1 F2 F3.
    generalize (PayloadLength f). intros n F1 F2 F3.
    destruct f as [fin r1 r2 r3 op mk p p16 p64 key ext data];
      cbn in *; subst. destruct fin; reflexivity.
  - assert (HT : lengthTag f = 126).
    { unfold lengthTag, MaxUint16.
      destruct (Z.leb_spec (PayloadLength f) 125); [lia|].
      destruct (Z.leb_spec (PayloadLength f) 65535); [reflexivity|lia]. }
    rewrite HT, F2. cbn [Z.leb Z.compare Pos.compare Pos.compare_cont andb
                          Z.eqb Pos.eqb].
    rewrite <- app_assoc.
    rewrite (bufio_Read_payload 2 (binary.PutUint16 (PayloadLength f)))
      by (cbn; lia).
    change (firstn 2 (binary.PutUint16 (PayloadLength f)))
      with (binary.PutUint16 (PayloadLength f)).
    change (skipn 2 (binary.PutUint16 (PayloadLength f))) with (@nil byte).
    cbn [app].
    rewrite Uint16_PutUint16 by lia.
    replace (Mask _) with false by (destruct (FIN f); reflexivity).
    replace (PayloadLength (set_payloadLengthInt16 _ _)) with (PayloadLength f).
    2:{ unfold PayloadLength at 2.
        cbn [payloadLengthInt payloadLengthInt16 set_payloadLengthInt16].
        replace (payloadLengthInt _) with (@None Z)
          by (destruct (FIN f); reflexivity).
        unfold uint64. rewrite Z.mod_small by lia. reflexivity. }
    rewrite Hmake. cbn [bind].
    rewrite bufio_Read_payload by exact Hn.
    do 3 f_equal.
    clear - R1 R2 R3 HM HK HE F1 F2 F3. revert F1 F2 F3.
    generalize (PayloadLength f). intros n F1 F2 F3.
    destruct f as [fin r1 r2 r3 op mk p p16 p64 key ext data];
      cbn in *; subst. destruct fin; reflexivity.
  - assert (HT : lengthTag f = 127).
    { unfold lengthTag, MaxUint16.
      destruct (Z.leb_spec (PayloadLength f) 125); [lia|].
      destruct (Z.leb_spec (PayloadLength f) 65535); [lia|reflexivity]. }
    rewrite HT, F3. cbn [Z.leb Z.compare Pos.compare Pos.compare_cont andb
                          Z.eqb Pos.eqb].
    rewrite <- app_assoc.
    rewrite (bufio_Read_payload 8 (binary.PutUint64 (PayloadLength f)))
      by (cbn; lia).
    change (firstn 8 (binary.PutUint64 (PayloadLength f)))
      with (binary.PutUint64 (PayloadLength f)).
    change (skipn 8 (binary.PutUint64 (PayloadLength f))) with (@nil byte).
    cbn [app].
    rewrite Uint64_PutUint64 by lia.
    replace (Mask _) with false by (destruct (FIN f); reflexivity).
    replace (PayloadLength (set_payloadLengthInt64 _ _)) with (PayloadLength f).
    2:{ unfold PayloadLength at 2.
        cbn [payloadLengthInt payloadLengthInt16 payloadLengthInt64
             set_payloadLengthInt64].
        replace (payloadLengthInt _) with (@None Z)
          by (destruct (FIN f); reflexivity).
        replace (payloadLengthInt16 _) with (@None Z)
          by (destruct (FIN f); reflexivity).
        unfold uint64. rewrite Z.mod_small by lia. reflexivity. }
    rewrite Hmake. cbn [bind].
    rewrite bufio_Read_payload by exact Hn.
    do 3 f_equal.
    clear - R1 R2 R3 HM HK HE F1 F2 F3. revert F1 F2 F3.
    generalize (PayloadLength f). intros n F1 F2 F3.
    destruct f as [fin r1 r2 r3 op mk p p16 p64 key ext data];
      cbn in *; subst. destruct fin; reflexivity.
Qed.

(** ** The frames of [fragment] on the wire *)

(** The cases of a chunk: its length is recorded where [writeFrame]
    looks for it, or the chunk has exactly 65535 bytes, for which
    [writeFrame] chooses the tag 126 and finds the 16-bit field [nil]. *)
Lemma chunkOf_cases (limit : Z) (f : Frame) :
  chunkOf limit f ->
  RSV1 f = false /\ RSV2 f = false /\ RSV3 f = false
  /\ Mask f = false /\ MaskingKey f = [] /\ ExtensionData f = []
  /\ ((tagged f /\ 1 <= PayloadLength f <= len (ApplicationData f))
      \/ (len (ApplicationData f) = 65535
          /\ lengthTag f = 126 /\ payloadLengthInt16 f = None)).
Proof.
  intros (_ & _ & Hlen & Hmax & Hlf).
  revert Hlf Hlen Hmax. generalize (ApplicationData f) at 1 2 3 4 5 6 7.
  intros c Hlf Hlen Hmax.
  unfold lengthFields in Hlf.
  unfold MaxInt, MaxUint16, MaxUint64, uint, uint16, uint64 in *.
  pose proof (Z.mod_pos_bound (len c) (2 ^ 16) eq_refl) as B16.
  destruct (Z.ltb_spec (len c) 126) as [H1|H1].
  { injection Hlf as <-. cbn. repeat split; auto.
    left. unfold tagged, PayloadLength, uint64. cbn.
    rewrite !(Z.mod_small (len c)) by lia.
    split; [left; repeat split; auto; lia|lia]. }
  destruct (Z.leb_spec 126 (len c mod 2 ^ 16)) as [H2|H2];
    destruct (Z.ltb_spec (len c mod 2 ^ 16) 65535) as [H3|H3];
    cbn [andb] in Hlf.
  1:{ injection Hlf as <-. cbn. repeat split; auto.
      left. unfold tagged, PayloadLength, uint64. cbn.
      rewrite (Z.mod_small (len c mod 2 ^ 16)) by lia.
      split; [right; left; repeat split; auto; lia|].
      split; [lia|]. apply Z.mod_le; lia. }
  all: rewrite (Z.mod_small (len c) (2 ^ 64)) in Hlf by lia.
  all: destruct (Z.leb_spec 65535 (len c)) as [H4|H4];
    [|exfalso; Z.div_mod_to_equations; lia].
  all: destruct (Z.ltb_spec (len c) (2 ^ 64 - 1)) as [H5|H5]; [|lia].
  all: cbn [andb] in Hlf; injection Hlf as <-; cbn; repeat split; auto.
  all: destruct (Z.eq_dec (len c) 65535) as [E|NE].
  all: try (right; rewrite E; repeat split; reflexivity).
  all: left; unfold tagged, PayloadLength, uint64; cbn;
    rewrite !(Z.mod_small (len c)) by lia;
    (split; [right; right; repeat split; auto; lia|lia]).
Qed.

(** ** [Send] *)

Lemma tagged_writes (f : Frame) :
  tagged f ->
  ((lengthTag f =? 126)
   && match payloadLengthInt16 f with Some _ => false | None => true end)
  || ((lengthTag f =? 127)
      && match payloadLengthInt64 f with Some _ => false | None => true end)
  = false.
Proof.
  unfold tagged, lengthTag, MaxUint16. cbv zeta.
  intros [(Hn & F1 & F2 & F3)|[(Hn & F1 & F2 & F3)|(Hn & F1 & F2 & F3)]];
    rewrite F2, F3.
  - destruct (Z.leb_spec (PayloadLength f) 125); [|lia].
    destruct (Z.eqb_spec (PayloadLength f) 126); [lia|].
    destruct (Z.eqb_spec (PayloadLength f) 127); [lia|]. reflexivity.
  - destruct (Z.leb_spec (PayloadLength f) 125); [lia|].
    destruct (Z.leb_spec (PayloadLength f) 65535); [|lia]. reflexivity.
  - destruct (Z.leb_spec (PayloadLength f) 125); [lia|].
    destruct (Z.leb_spec (PayloadLength f) 65535); [lia|]. reflexivity.
Qed.

Lemma with_writer_same (ws : Websocket) :
  bufio.werr (writer ws) = None ->
  with_writer ws {| bufio.written := bufio.written (writer ws) ++ [];
                    bufio.werr := None |} = ws.
Proof.
  destruct ws as [r [wr we] ty lim]. cbn. intros ->.
  unfold with_writer. cbn. rewrite app_nil_r. reflexivity.
Qed.

(** On a writer that accepts data [Send_loop] writes the frames one
    after the other, unless one of them makes [writeFrame] panic. *)
Lemma Send_loop_written (frames : list Frame) :
  forall ws : Websocket,
    bufio.werr (writer ws) = None ->
    Forall (fun f => bits_of_opcode (FrameOpcode f) <> None) frames ->
    Send_loop ws frames = Panic NilDereference
    \/ Send_loop ws frames
       = Ret (None,
              with_writer ws
                {| bufio.written :=
                     bufio.written (writer ws) ++ concat (map wire frames);
                   bufio.werr := None |}).
Proof.
  induction frames as [|f frames IH]; intros ws Hw Hops.
  - right. cbn. rewrite with_writer_same by exact Hw. reflexivity.
  - inversion Hops as [|? ? Hop Hops']; subst.
    cbn [Send_loop map concat]. rewrite writeFrame_wire by assumption.
    destruct (_ || _); [left; reflexivity|]. cbn [bind].
    destruct (IH (with_writer ws
                    {| bufio.written := bufio.written (writer ws) ++ wire f;
                       bufio.werr := None |}) eq_refl Hops') as [->| ->].
    + left. reflexivity.
    + right. cbn [with_writer writer bufio.written reader t framingLimit].
      rewrite <- app_assoc. reflexivity.
Qed.

Lemma Forall_update {A : Type} (P : A -> Prop) (g : A -> A) (l : list A)
    (i : nat) :
  (forall x, P x -> P (g x)) -> Forall P l -> Forall P (update i g l).
Proof.
  intros Hg. revert i. induction l as [|x l IH]; intros i H.
  - destruct i; constructor.
  - inversion H; subst. destruct i; cbn; constructor; auto.
Qed.

Lemma messageOpcode_bits (ty : WebsocketType) :
  bits_of_opcode (messageOpcode ty) <> None.
Proof.
  unfold messageOpcode. destruct (String.eqb ty TextWebsocket); discriminate.
Qed.

(** The first of the frames [fragment] returns: the first chunk, with
    the opcode of the message type, final or not. *)
Lemma update_first (g h : Frame -> Frame) (f : Frame) (fs : list Frame) :
  exists rest,
    update 0 h (update (length (f :: fs) - 1) g (f :: fs))
    = h (match fs with [] => g f | _ :: _ => f end) :: rest
    /\ (forall P : Frame -> Prop,
           (forall x, P x -> P (g x)) -> Forall P fs -> Forall P rest).
Proof.
  cbn [length]. replace (S (length fs) - 1)%nat with (length fs) by lia.
  destruct fs as [|f' fs'].
  - exists []. split; [reflexivity|]. intros; constructor.
  - cbn [length update]. eexists. split; [reflexivity|].
    intros P Hg HP. apply (Forall_update P g (f' :: fs') (length fs') Hg HP).
Qed.

(** [Receive] on the bytes of a frame the server wrote: the frame is
    decoded without a masking key, and [umask] panics on the first byte
    of its payload. *)
Lemma Receive_wire_panics (ws : Websocket) (f : Frame) (tail : list byte)
    (e : io_error) (fuel : nat) :
  plain f -> tagged f ->
  1 <= PayloadLength f <= len (ApplicationData f) ->
  reader ws = {| bufio.pending := wire f ++ tail; bufio.final := e |} ->
  Receive (S fuel) ws = Panic IndexOutOfRange.
Proof.
  intros Hp Ht Hl Hr. unfold Receive. cbn [Receive_loop].
  rewrite (readFrame_wire ws f tail e Hp Ht) by (exact Hr || lia).
  cbn [bind]. rewrite umask_no_key; [reflexivity| |].
  - cbn. apply Hp.
  - cbn. unfold len in Hl.
    destruct (ApplicationData f) as [|b l]; [cbn in Hl; lia|].
    destruct (Z.to_nat (PayloadLength f)) eqn:E; [lia|]. discriminate.
Qed.



(** ** Encoding and decoding the frames of [fragment] *)

(** A chunk of at most 65534 bytes is recorded with its own length in
    the field [writeFrame] reads. *)
Lemma chunkOf_codecFrame (limit : Z) (f : Frame) :
  limit <= 65534 -> chunkOf limit f -> codecFrame f.
Proof.
  intros Hlim Hc.
  destruct (chunkOf_cases _ _ Hc) as (R1 & R2 & R3 & HM & HK & HE & Hcase).
  destruct Hc as (_ & Hop & Hlen & Hmax & Hlf).
  assert (Hplain : plain f).
  { unfold plain. rewrite Hop. repeat split; auto. discriminate. }
  destruct Hcase as [[Ht Hpl]|(H & _)]; [|lia].
  split; [exact Hplain|]. split; [exact Ht|].
  revert Hlf Hlen. generalize (ApplicationData f).
  intros c Hlf Hlen. unfold lengthFields in Hlf.
  unfold MaxUint16, uint, uint16, uint64 in Hlf.
  destruct (Z.ltb_spec (len c) 126).
  { injection Hlf as <-. unfold PayloadLength, uint64. cbn.
    rewrite !(Z.mod_small (len c)) by lia. reflexivity. }
  rewrite (Z.mod_small (len c) (2 ^ 16)) in Hlf by lia.
  destruct (Z.leb_spec 126 (len c)); [|lia].
  destruct (Z.ltb_spec (len c) 65535); [|lia].
  cbn [andb] in Hlf. injection Hlf as <-. unfold PayloadLength, uint64. cbn.
  rewrite !(Z.mod_small (len c)) by lia. reflexivity.
Qed.

Lemma codecFrame_set_FIN (f : Frame) (v : bool) :
  codecFrame f -> codecFrame (set_FIN f v).
Proof. intros H. exact H. Qed.

Lemma codecFrame_set_Opcode (f : Frame) (ty : WebsocketType) :
  codecFrame f -> codecFrame (set_Opcode f (messageOpcode ty)).
Proof.
  intros ((R1 & R2 & R3 & HM & HK & HE & _) & Ht & Hl).
  split; [|split; [exact Ht|exact Hl]].
  unfold plain. cbn. repeat split; auto using messageOpcode_bits.
Qed.

(** Such frames are all written, and are read back one by one. *)
Lemma Send_loop_codecFrames (frames : list Frame) (ws : Websocket) :
  bufio.werr (writer ws) = None ->
  Forall codecFrame frames ->
  Send_loop ws frames
  = Ret (None,
         with_writer ws
           {| bufio.written :=
                bufio.written (writer ws) ++ concat (map wire frames);
              bufio.werr := None |}).
Proof.
  revert ws. induction frames as [|f frames IH]; intros ws Hw Hall.
  - cbn. rewrite with_writer_same by exact Hw. reflexivity.
  - inversion Hall as [|? ? (Hp & Ht & _) Hall']; subst.
    cbn [Send_loop map concat].
    rewrite writeFrame_wire by (exact Hw || apply Hp).
    rewrite (tagged_writes f Ht). cbn [bind].
    rewrite IH by (reflexivity || exact Hall').
    cbn [with_writer writer bufio.written reader t framingLimit].
    rewrite <- app_assoc. reflexivity.
Qed.

Lemma readFrames_wire (frames : list Frame) :
  forall (ws : Websocket) (tail : list byte) (e : io_error),
    Forall codecFrame frames ->
    reader ws = {| bufio.pending := concat (map wire frames) ++ tail;
                   bufio.final := e |} ->
    readFrames (length frames) ws
    = Ret ((frames, None),
           with_reader ws {| bufio.pending := tail; bufio.final := e |}).
Proof.
  induction frames as [|f frames IH]; intros ws tail e Hall Hr.
  - cbn in *. rewrite <- Hr. destruct ws; reflexivity.
  - inversion Hall as [|? ? (Hp & Ht & Hl) Hall']; subst.
    cbn [length readFrames map concat] in *.
    rewrite <- app_assoc in Hr.
    rewrite (readFrame_wire ws f _ e Hp Ht) by (exact Hr || lia).
    cbn [bind]. rewrite Hl. unfold len. rewrite Nat2Z.id.
    rewrite firstn_all, skipn_all. cbn [app].
    rewrite (IH _ tail e Hall') by reflexivity.
    cbn [bind]. do 3 f_equal.
    clear. destruct f; reflexivity.
Qed.



(** ** [Send] and [Receive] *)

(** C4: the code at three inputs.  [Receive] panics on the unmasked text
    frame [81 01 41], whose payload is one byte: [umask] indexes the
    masking key, which is [nil].  [Receive] panics on a header that
    announces a payload of [2^64 - 1] bytes, in [make].  [Send] panics
    on a payload of 65535 bytes sent in one chunk. *)
Theorem Receive_and_Send_panic :
  Receive 1 (connection TextWebsocket 1 [x81; x01; x41])
  = Panic IndexOutOfRange
  /\ Receive 1 (connection TextWebsocket 1
                  [x81; x7f; xff; xff; xff; xff; xff; xff; xff; xff])
     = Panic MakeSliceLenOutOfRange
  /\ Send 2 (connection BinaryWebsocket 65535 []) (zeros 65535)
     = Panic NilDereference.
Proof.
  repeat split; vm_compute; reflexivity.
Qed.

(** C1: the code at the payload [0x41] with a limit of 1 on a text
    connection.  [Send] writes the unmasked frame [81 01 41]; [Receive]
    panics on it, so the round trip does not give the payload back. *)
Theorem roundtrip_at_one_byte :
  Send 2 (connection TextWebsocket 1 []) [x41]
  = Ret (None,
         with_writer (connection TextWebsocket 1 [])
           {| bufio.written := [x81; x01; x41]; bufio.werr := None |})
  /\ roundtrip 2 TextWebsocket 1 [x41] = Panic IndexOutOfRange.
Proof.
  split; reflexivity.
Qed.

(** ** The accept token *)

(** C7: [generateWebsocketAcceptToken] is the base64 encoding of the
    SHA-1 digest of the key followed by the GUID
    258EAFA5-E914-47DA-95CA-C5AB0DC85B11, and for the key of the example
    of RFC 6455 it is s3pPLMBiTxaQ9kYGzzhZRbK+xOo=. *)
Theorem generateWebsocketAcceptToken_sample :
  (forall key : string,
      generateWebsocketAcceptToken key
      = base64.EncodeToString
          (sha1.Sum (list_byte_of_string
                       (key ++ "258EAFA5-E914-47DA-95CA-C5AB0DC85B11"))))
  /\ generateWebsocketAcceptToken "dGhlIHNhbXBsZSBub25jZQ=="
     = "s3pPLMBiTxaQ9kYGzzhZRbK+xOo="%string.
Proof.
  split; [reflexivity|]. vm_compute. reflexivity.
Qed.

(** ** [Open] *)

(** On a connection that accepts what is written to it the handshake
    and [Open] succeed. *)
Lemma handshake_accepted (wso : WSOpener) (w : bufio.Writer) (r : http.Request) :
  bufio.werr w = None ->
  exists w', handshake wso w r = (None, w') /\ bufio.werr w' = None.
Proof.
  intros Hw. unfold handshake, http.Response_Write, bufio.Write, bufio.Flush.
  rewrite Hw. cbn. eexists. split; reflexivity.
Qed.

Lemma Open_succeeds (wso : WSOpener) (conn : http.Conn) (r : http.Request)
    (ty : WebsocketType) :
  http.refused conn = None ->
  exists ws,
    Open wso (http.Hijacker (inl conn)) r ty = (Some ws, None)
    /\ framingLimit ws = MaxBytes wso
    /\ t ws = ty.
Proof.
  intros Hc. unfold Open.
  destruct (handshake_accepted wso
              {| bufio.written := []; bufio.werr := http.refused conn |} r Hc)
    as (w' & Hh & _).
  cbn [writer]. rewrite Hh. eexists. repeat split.
Qed.

(** ** [Open] and the framing limit *)

(** With a limit of at least 1 [fragment] returns. *)
Lemma fragment_terminates (ws : Websocket) (data : list byte) (fuel : nat) :
  1 <= framingLimit ws -> len data <= MaxInt -> (length data < fuel)%nat ->
  exists frames err, fragment fuel ws data = Ret (frames, err).
Proof.
  intros Hl Hmax Hfuel.
  destruct (fragment_loop_spec ws Hl fuel data [] Hmax Hfuel)
    as (fs & Hrun & _).
  unfold fragment, bytes.NewReader. rewrite Hrun. cbn [bind app].
  destruct (0 <? len fs); [|eauto].
  destruct (String.eqb (t ws) TextWebsocket); [eauto|].
  destruct (String.eqb (t ws) BinaryWebsocket); eauto.
Qed.

(** C8 (counterexample): [Open] with [MaxBytes] 0 succeeds, and on the
    connection it returns the loop of [fragment] does not end for a
    payload of one byte, whatever the fuel; [Open] with [MaxBytes] -1
    succeeds as well, and [fragment] then panics. *)
Lemma Open_accepts_zero_and_negative_bound :
  (exists ws,
      Open {| MaxBytes := 0 |} (http.Hijacker (inl quietConn)) sampleRequest
           TextWebsocket = (Some ws, None)
      /\ forall fuel : nat, fragment fuel ws [x41] = OutOfFuel)
  /\ (exists ws,
         Open {| MaxBytes := -1 |} (http.Hijacker (inl quietConn))
              sampleRequest TextWebsocket = (Some ws, None)
         /\ forall fuel : nat,
              fragment (S fuel) ws [x41] = Panic MakeSliceLenOutOfRange).
Proof.
  split.
  - eexists. split; [reflexivity|].
    intros fuel. apply fragment_zero_limit; [reflexivity|discriminate].
  - eexists. split; [reflexivity|].
    intros fuel. apply fragment_negative_limit. reflexivity.
Qed.

(** C8 (amended): [Open] does not look at the bound.  Whatever [MaxBytes]
    is, when the response writer hands over a connection that accepts
    the response of the handshake, [Open] succeeds and the framing limit
    of the connection is [MaxBytes] as given; when that bound is at
    least 1, [fragment] returns for every payload. *)
Theorem Open_keeps_any_bound (wso : WSOpener) (conn : http.Conn)
    (r : http.Request) (ty : WebsocketType) :
  http.refused conn = None ->
  exists ws,
    Open wso (http.Hijacker (inl conn)) r ty = (Some ws, None)
    /\ framingLimit ws = MaxBytes wso
    /\ (1 <= MaxBytes wso ->
        forall data : list byte,
          len data <= MaxInt ->
          exists frames err,
            fragment (S (length data)) ws data = Ret (frames, err)).
Proof.
  intros Hc.
  destruct (Open_succeeds wso conn r ty Hc) as (ws & Ho & Hl & _).
  exists ws. repeat split; auto.
  intros Hb data Hmax. apply fragment_terminates; [lia|exact Hmax|lia].
Qed.

Lemma Open_keeps_any_bound_witness :
  exists ws,
    Open {| MaxBytes := 20 |} (http.Hijacker (inl quietConn)) sampleRequest
         BinaryWebsocket = (Some ws, None)
    /\ framingLimit ws = 20
    /\ (1 <= 20 ->
        forall data : list byte,
          len data <= MaxInt ->
          exists frames err,
            fragment (S (length data)) ws data = Ret (frames, err)).
Proof.
  apply (Open_keeps_any_bound {| MaxBytes := 20 |} quietConn sampleRequest
           BinaryWebsocket).
  reflexivity.
Defined.

(** * Further properties *)

(** ** The chunks of [fragment] *)

(** Every frame the loop adds but the last one holds exactly
    [framingLimit] bytes. *)
Lemma fragment_loop_full (ws : Websocket) (fuel : nat) :
  1 <= framingLimit ws ->
  forall (rest : list byte) (frames : list Frame),
    len rest <= MaxInt -> (length rest < fuel)%nat ->
    exists fs,
      fragment_loop fuel ws rest (len rest) frames = Ret (frames ++ fs, None)
      /\ (rest = [] -> fs = [])
      /\ forall (i : nat) (f : Frame),
           nth_error fs i = Some f -> (S i < length fs)%nat ->
           len (ApplicationData f) = framingLimit ws.
Proof.
  intros Hl. induction fuel as [|fuel IH]; intros rest frames Hmax Hfuel; [lia|].
  destruct (list_eq_dec Byte.byte_eq_dec rest []) as [->|Hne].
  - exists []. cbn [fragment_loop len length Z.of_nat].
    replace (framingLimit ws <? 0) with false by (symmetry; apply Z.ltb_ge; lia).
    cbn. rewrite app_nil_r. repeat split; auto.
    intros [|i] f H; discriminate H.
  - rewrite (fragment_loop_step ws Hl) by assumption.
    set (k := Z.to_nat (Z.min (framingLimit ws) (len rest))).
    assert (Hlen : 1 <= len rest).
    { unfold len. destruct rest; [congruence|]. cbn [length]. lia. }
    assert (Hkl : (k <= length rest)%nat) by (subst k; unfold len in *; lia).
    assert (Hfl : length (firstn k rest) = k) by (rewrite length_firstn; lia).
    destruct (lengthFields_inl (chunkFrame (firstn k rest))
                (len (firstn k rest))) as (frame & Hlf & _ & _ & HA).
    { unfold len in *. rewrite Hfl. lia. }
    rewrite Hlf.
    destruct (IH (skipn k rest) (frames ++ [frame]))
      as (fs & Hrun & Hnil & Hfull).
    { unfold len in *. rewrite length_skipn. lia. }
    { rewrite length_skipn. lia. }
    exists (frame :: fs). rewrite Hrun, <- app_assoc. cbn [app].
    split; [reflexivity|]. split; [congruence|].
    intros [|i] f Hi Hlast; cbn [nth_error length] in *.
    + injection Hi as <-. rewrite HA.
      change (ApplicationData (chunkFrame (firstn k rest)))
        with (firstn k rest).
      unfold len. rewrite Hfl.
      assert (Hrest' : skipn k rest <> []).
      { intros E. rewrite (Hnil E) in Hlast. cbn in Hlast. lia. }
      assert (k < length rest)%nat.
      { destruct (Nat.eq_dec k (length rest)) as [E|]; [|lia].
        rewrite E, skipn_all in Hrest'. congruence. }
      subst k. unfold len in *. lia.
    + apply (Hfull i f Hi). lia.
Qed.

Lemma nth_error_update_data (g : Frame -> Frame) (l : list Frame) (i j : nat)
    (f : Frame) :
  (forall x, ApplicationData (g x) = ApplicationData x) ->
  nth_error (update i g l) j = Some f ->
  exists f0, nth_error l j = Some f0
             /\ ApplicationData f = ApplicationData f0.
Proof.
  intros Hg. rewrite nth_error_update.
  destruct (nth_error l j) as [f0|]; [|destruct (Nat.eqb i j); discriminate].
  destruct (Nat.eqb i j); cbn; intros H; injection H as <-;
    exists f0; split; auto.
Qed.

(** X1: for a limit of at least 1 and a connection of type text or
    binary, [fragment] cuts the payload into consecutive chunks: the data
    of the frames, put together in order, is the payload; every frame
    holds at least one byte and at most [framingLimit] bytes, and every
    frame but the last holds exactly [framingLimit] bytes. *)
Theorem fragment_chunks (ws : Websocket) (data : list byte) (fuel : nat) :
  1 <= framingLimit ws ->
  t ws = TextWebsocket \/ t ws = BinaryWebsocket ->
  len data <= MaxInt -> (length data < fuel)%nat ->
  exists frames,
    fragment fuel ws data = Ret (frames, None)
    /\ concat (map ApplicationData frames) = data
    /\ forall (i : nat) (f : Frame),
         nth_error frames i = Some f ->
         1 <= len (ApplicationData f) <= framingLimit ws
         /\ ((S i < length frames)%nat ->
             len (ApplicationData f) = framingLimit ws).
Proof.
  intros Hl Ht Hmax Hfuel.
  destruct (fragment_loop_spec ws Hl fuel data [] Hmax Hfuel)
    as (fs & Hrun & Hall & Hcat & _).
  destruct (fragment_loop_full ws fuel Hl data [] Hmax Hfuel)
    as (fs' & Hrun' & _ & Hfull).
  rewrite Hrun in Hrun'. cbn [app] in Hrun'. injection Hrun' as <-.
  assert (Hframe : forall frames,
    (frames = fs
     \/ frames = update 0 (fun f => set_Opcode f (messageOpcode (t ws)))
                   (update (length fs - 1) (fun f => set_FIN f true) fs)) ->
    concat (map ApplicationData frames) = data
    /\ forall (i : nat) (f : Frame),
         nth_error frames i = Some f ->
         1 <= len (ApplicationData f) <= framingLimit ws
         /\ ((S i < length frames)%nat ->
             len (ApplicationData f) = framingLimit ws)).
  { intros frames Hfr.
    assert (Hdata : forall i f, nth_error frames i = Some f ->
              exists f0, nth_error fs i = Some f0
                         /\ ApplicationData f = ApplicationData f0).
    { intros i f Hi. destruct Hfr as [->| ->]; [eauto|].
      apply nth_error_update_data in Hi; [|reflexivity].
      destruct Hi as (f1 & Hi & E1).
      apply nth_error_update_data in Hi; [|reflexivity].
      destruct Hi as (f0 & Hi & E0). exists f0. split; congruence. }
    assert (Hlength : length frames = length fs).
    { destruct Hfr as [->| ->]; [reflexivity|].
      rewrite !update_length. reflexivity. }
    split.
    - destruct Hfr as [->| ->]; [exact Hcat|].
      rewrite !concat_map_update by reflexivity. exact Hcat.
    - intros i f Hi. destruct (Hdata i f Hi) as (f0 & Hi0 & ->).
      rewrite Forall_forall in Hall.
      destruct (Hall f0 (nth_error_In _ _ Hi0)) as (_ & _ & Hb & _).
      split; [exact Hb|]. rewrite Hlength. apply (Hfull i f0 Hi0). }
  unfold fragment, bytes.NewReader. rewrite Hrun. cbn [bind app].
  destruct (0 <? len fs).
  - unfold messageOpcode in Hframe.
    destruct Ht as [Ht|Ht]; rewrite Ht in *; cbn [String.eqb Ascii.eqb Bool.eqb]
      in *; eexists; (split; [reflexivity|]); apply Hframe; right; reflexivity.
  - eexists. split; [reflexivity|]. apply Hframe. left. reflexivity.
Qed.

Lemma fragment_chunks_witness :
  exists frames,
    fragment 6 (connection BinaryWebsocket 2 []) [x01; x02; x03; x04; x05]
    = Ret (frames, None)
    /\ concat (map ApplicationData frames) = [x01; x02; x03; x04; x05]
    /\ forall (i : nat) (f : Frame),
         nth_error frames i = Some f ->
         1 <= len (ApplicationData f) <= 2
         /\ ((S i < length frames)%nat -> len (ApplicationData f) = 2).
Proof.
  apply (fragment_chunks (connection BinaryWebsocket 2 [])
           [x01; x02; x03; x04; x05] 6).
  - cbn. discriminate.
  - right. reflexivity.
  - vm_compute. discriminate.
  - cbn. repeat constructor.
Defined.

(** ** A connection that is neither text nor binary *)

(** X2: on a connection whose type is neither text nor binary, [Send]
    of a payload that is not empty returns [InvalidFrameType] and leaves
    the connection as it was: the type is looked at only after the frames
    are built, and nothing is written. *)
Theorem Send_unknown_type (ws : Websocket) (data : list byte) (fuel : nat) :
  1 <= framingLimit ws ->
  t ws <> TextWebsocket -> t ws <> BinaryWebsocket ->
  data <> [] -> len data <= MaxInt -> (length data < fuel)%nat ->
  (exists frames, fragment fuel ws data = Ret (frames, Some InvalidFrameType))
  /\ Send fuel ws data = Ret (Some InvalidFrameType, ws).
Proof.
  intros Hl Ht Hb Hne Hmax Hfuel.
  destruct (fragment_loop_spec ws Hl fuel data [] Hmax Hfuel)
    as (fs & Hrun & _ & _ & Hfs).
  specialize (Hfs Hne).
  assert (Hfrag : exists frames,
             fragment fuel ws data = Ret (frames, Some InvalidFrameType)).
  { unfold fragment, bytes.NewReader. rewrite Hrun. cbn [bind app].
    replace (0 <? len fs) with true.
    2:{ symmetry. apply Z.ltb_lt. unfold len.
        destruct fs; [congruence|]. cbn [length]. lia. }
    apply String.eqb_neq in Ht, Hb. rewrite Ht, Hb. eauto. }
  split; [exact Hfrag|].
  destruct Hfrag as (frames & Hfrag). unfold Send. rewrite Hfrag. reflexivity.
Qed.

Lemma Send_unknown_type_witness :
  (exists frames,
      fragment 2 (connection "json"%string 20 []) [x7b] = Ret (frames, Some InvalidFrameType))
  /\ Send 2 (connection "json"%string 20 []) [x7b]
     = Ret (Some InvalidFrameType, connection "json"%string 20 []).
Proof.
  apply (Send_unknown_type (connection "json"%string 20 []) [x7b] 2).
  - cbn. discriminate.
  - discriminate.
  - discriminate.
  - discriminate.
  - vm_compute. discriminate.
  - cbn. repeat constructor.
Defined.

(** ** A framing limit that is not positive *)

(** X3: with a framing limit of zero [Send] of a payload that is not
    empty does not return, whatever the fuel: every iteration of the loop
    of [fragment] reads a chunk of no bytes and the loop goes on. *)
Theorem Send_zero_limit_never_returns (ws : Websocket) (data : list byte)
    (fuel : nat) :
  framingLimit ws = 0 -> data <> [] ->
  Send fuel ws data = OutOfFuel.
Proof.
  intros Hl Hne. unfold Send.
  rewrite fragment_zero_limit by assumption. reflexivity.
Qed.

Lemma Send_zero_limit_never_returns_witness :
  Send 1000 (connection TextWebsocket 0 []) [x41] = OutOfFuel.
Proof.
  apply (Send_zero_limit_never_returns (connection TextWebsocket 0 []) [x41]
           1000).
  - reflexivity.
  - discriminate.
Defined.

(** X4: with a negative framing limit [Send] panics for every payload,
    the empty one included: the first [make] of the loop of [fragment]
    is given the negative limit as the length. *)
Theorem Send_negative_limit_panics (ws : Websocket) (data : list byte)
    (fuel : nat) :
  framingLimit ws < 0 ->
  Send (S fuel) ws data = Panic MakeSliceLenOutOfRange.
Proof.
  intros Hl. unfold Send.
  rewrite fragment_negative_limit by assumption. reflexivity.
Qed.

Lemma Send_negative_limit_panics_witness :
  Send 1 (connection TextWebsocket (-20) []) []
  = Panic MakeSliceLenOutOfRange.
Proof.
  apply (Send_negative_limit_panics (connection TextWebsocket (-20) []) [] 0).
  reflexivity.
Defined.

(** ** A message of one frame on the wire *)

(** A payload that is not empty and fits the limit becomes one frame,
    final and with the opcode of the message type. *)
Lemma fragment_single (ws : Websocket) (data : list byte) (fuel : nat) :
  1 <= len data <= framingLimit ws -> len data <= MaxInt ->
  t ws = TextWebsocket \/ t ws = BinaryWebsocket ->
  exists f0,
    lengthFields (chunkFrame data) (len data) = inl f0
    /\ fragment (S (S fuel)) ws data
       = Ret ([set_Opcode (set_FIN f0 true) (messageOpcode (t ws))], None).
Proof.
  intros Hlen Hmax Ht.
  assert (Hl : 1 <= framingLimit ws) by lia.
  assert (Hne : data <> []).
  { intros ->. cbn in Hlen. lia. }
  destruct (lengthFields_inl (chunkFrame data) (len data)) as (f0 & Hlf & _);
    [lia|].
  exists f0. split; [exact Hlf|].
  unfold fragment, bytes.NewReader.
  rewrite (fragment_loop_step ws Hl) by assumption.
  replace (Z.to_nat (Z.min (framingLimit ws) (len data))) with (length data)
    by (unfold len in *; lia).
  rewrite firstn_all, skipn_all, Hlf.
  cbn [fragment_loop len length Z.of_nat app].
  replace (framingLimit ws <? 0) with false by (symmetry; apply Z.ltb_ge; lia).
  cbn. unfold messageOpcode. destruct Ht as [-> | ->]; reflexivity.
Qed.

Lemma messageOpcode_header (ty : WebsocketType) :
  ty = TextWebsocket \/ ty = BinaryWebsocket ->
  byte_of_Z (Z.lor 0x80 (match bits_of_opcode (messageOpcode ty) with
                         | Some bits => bits
                         | None => 0
                         end))
  = if String.eqb ty TextWebsocket then x81 else x82.
Proof.
  intros [-> | ->]; reflexivity.
Qed.

(** X5: [Send] of a payload of 1 to 125 bytes that fits the framing
    limit, on a connection of type text or binary whose writer accepts
    data, writes exactly one unmasked final frame: the byte 0x81 (text)
    or 0x82 (binary), one byte holding the length, and the payload,
    unchanged. *)
Theorem Send_short_message (ws : Websocket) (data : list byte) (fuel : nat) :
  1 <= len data <= 125 -> len data <= framingLimit ws ->
  t ws = TextWebsocket \/ t ws = BinaryWebsocket ->
  bufio.werr (writer ws) = None ->
  Send (S (S fuel)) ws data
  = Ret (None,
         with_writer ws
           {| bufio.written :=
                bufio.written (writer ws)
                ++ (if String.eqb (t ws) TextWebsocket then x81 else x82)
                   :: byte_of_Z (len data) :: data;
              bufio.werr := None |}).
Proof.
  intros Hlen Hlim Ht Hw.
  destruct (fragment_single ws data fuel) as (f0 & Hlf & Hfrag);
    [lia|unfold MaxInt; lia|exact Ht|].
  unfold Send. rewrite Hfrag. cbn [bind Send_loop].
  unfold lengthFields in Hlf.
  replace (len data <? 126) with true in Hlf
    by (symmetry; apply Z.ltb_lt; lia).
  injection Hlf as <-.
  rewrite writeFrame_wire;
    [|exact Hw|cbn; destruct Ht as [-> | ->]; discriminate].
  assert (HPL : PayloadLength
                  (set_Opcode (set_FIN (set_payloadLengthInt (chunkFrame data)
                                          (uint (len data))) true)
                              (messageOpcode (t ws))) = len data).
  { unfold PayloadLength, uint, uint64. cbn.
    rewrite !(Z.mod_small (len data)) by lia. reflexivity. }
  assert (HT : lengthTag
                 (set_Opcode (set_FIN (set_payloadLengthInt (chunkFrame data)
                                         (uint (len data))) true)
                             (messageOpcode (t ws))) = len data).
  { unfold lengthTag. rewrite HPL.
    destruct (Z.leb_spec (len data) 125); [reflexivity|lia]. }
  unfold wire. rewrite HT.
  replace (len data =? 126) with false by (symmetry; apply Z.eqb_neq; lia).
  replace (len data =? 127) with false by (symmetry; apply Z.eqb_neq; lia).
  cbn [andb orb bind FIN set_FIN set_Opcode FrameOpcode ApplicationData
       set_payloadLengthInt chunkFrame set_ApplicationData app].
  rewrite (messageOpcode_header (t ws) Ht). reflexivity.
Qed.

Lemma Send_short_message_witness :
  Send 2 (connection TextWebsocket 20 []) [x68; x69]
  = Ret (None,
         with_writer (connection TextWebsocket 20 [])
           {| bufio.written := [] ++ x81 :: byte_of_Z 2 :: [x68; x69];
              bufio.werr := None |}).
Proof.
  apply (Send_short_message (connection TextWebsocket 20 []) [x68; x69] 0).
  - vm_compute. split; discriminate.
  - vm_compute. discriminate.
  - left. reflexivity.
  - reflexivity.
Defined.

(** X6: [Send] of a payload of 126 to 65534 bytes that fits the framing
    limit writes one unmasked final frame whose second byte is the tag
    126 and whose next two bytes are the length, most significant byte
    first; the payload follows unchanged. *)
Theorem Send_medium_message (ws : Websocket) (data : list byte) (fuel : nat) :
  126 <= len data <= 65534 -> len data <= framingLimit ws ->
  t ws = TextWebsocket \/ t ws = BinaryWebsocket ->
  bufio.werr (writer ws) = None ->
  Send (S (S fuel)) ws data
  = Ret (None,
         with_writer ws
           {| bufio.written :=
                bufio.written (writer ws)
                ++ (if String.eqb (t ws) TextWebsocket then x81 else x82)
                   :: x7e
                   :: byte_of_Z (len data / 256) :: byte_of_Z (len data)
                   :: data;
              bufio.werr := None |}).
Proof.
  intros Hlen Hlim Ht Hw.
  destruct (fragment_single ws data fuel) as (f0 & Hlf & Hfrag);
    [lia|unfold MaxInt; lia|exact Ht|].
  unfold Send. rewrite Hfrag. cbn [bind Send_loop].
  unfold lengthFields, uint16, MaxUint16 in Hlf.
  replace (len data <? 126) with false in Hlf
    by (symmetry; apply Z.ltb_ge; lia).
  rewrite (Z.mod_small (len data) (2 ^ 16)) in Hlf by lia.
  replace (126 <=? len data) with true in Hlf
    by (symmetry; apply Z.leb_le; lia).
  replace (len data <? 65535) with true in Hlf
    by (symmetry; apply Z.ltb_lt; lia).
  cbn [andb] in Hlf. injection Hlf as <-.
  rewrite writeFrame_wire;
    [|exact Hw|cbn; destruct Ht as [-> | ->]; discriminate].
  assert (HPL : PayloadLength
                  (set_Opcode (set_FIN (set_payloadLengthInt16 (chunkFrame data)
                                          (len data)) true)
                              (messageOpcode (t ws))) = len data).
  { unfold PayloadLength, uint64. cbn.
    rewrite !(Z.mod_small (len data)) by lia. reflexivity. }
  assert (HT : lengthTag
                 (set_Opcode (set_FIN (set_payloadLengthInt16 (chunkFrame data)
                                         (len data)) true)
                             (messageOpcode (t ws))) = 126).
  { unfold lengthTag, MaxUint16. rewrite HPL.
    destruct (Z.leb_spec (len data) 125); [lia|].
    destruct (Z.leb_spec (len data) 65535); [reflexivity|lia]. }
  unfold wire. rewrite HT.
  cbn [Z.eqb Pos.eqb andb orb bind FIN set_FIN set_Opcode FrameOpcode
       ApplicationData payloadLengthInt16 set_payloadLengthInt16 chunkFrame
       set_ApplicationData app binary.PutUint16].
  rewrite (messageOpcode_header (t ws) Ht).
  rewrite Z.shiftr_div_pow2 by lia. reflexivity.
Qed.

Lemma Send_medium_message_witness :
  Send 2 (connection BinaryWebsocket 300 []) (zeros 300)
  = Ret (None,
         with_writer (connection BinaryWebsocket 300 [])
           {| bufio.written :=
                [] ++ x82 :: x7e
                   :: byte_of_Z (len (zeros 300) / 256)
                   :: byte_of_Z (len (zeros 300)) :: zeros 300;
              bufio.werr := None |}).
Proof.
  apply (Send_medium_message (connection BinaryWebsocket 300 []) (zeros 300) 0).
  - vm_compute. split; discriminate.
  - vm_compute. discriminate.
  - right. reflexivity.
  - reflexivity.
Defined.

(** ** Chunks of 65536 bytes and more *)

(** X7: a payload of at least 65536 bytes sent in one chunk whose length
    modulo 65536 lies between 126 and 65534 is recorded by [fragment] in
    the 16-bit field, reduced modulo 65536 by the conversion to
    [uint16]: the frame holds all the bytes and announces fewer. *)
Theorem fragment_length_wraps (ws : Websocket) (data : list byte)
    (fuel : nat) :
  65536 <= len data <= MaxInt -> len data <= framingLimit ws ->
  126 <= len data mod 65536 < 65535 ->
  t ws = TextWebsocket \/ t ws = BinaryWebsocket ->
  exists f,
    fragment (S (S fuel)) ws data = Ret ([f], None)
    /\ ApplicationData f = data
    /\ payloadLengthInt f = None
    /\ payloadLengthInt16 f = Some (len data mod 65536)
    /\ payloadLengthInt64 f = None
    /\ PayloadLength f < len data.
Proof.
  intros Hlen Hlim Hmod Ht.
  destruct (fragment_single ws data fuel) as (f0 & Hlf & Hfrag);
    [lia|lia|exact Ht|].
  eexists. split; [exact Hfrag|].
  unfold lengthFields, uint16, MaxUint16 in Hlf.
  change (2 ^ 16) with 65536 in Hlf.
  replace (len data <? 126) with false in Hlf
    by (symmetry; apply Z.ltb_ge; lia).
  replace (126 <=? len data mod 65536) with true in Hlf
    by (symmetry; apply Z.leb_le; lia).
  replace (len data mod 65536 <? 65535) with true in Hlf
    by (symmetry; apply Z.ltb_lt; lia).
  cbn [andb] in Hlf. injection Hlf as <-.
  cbn. repeat split; auto.
  unfold PayloadLength, uint64. cbn.
  rewrite Z.mod_small by lia. lia.
Qed.

Lemma fragment_length_wraps_witness :
  exists f,
    fragment 2 (connection BinaryWebsocket 70000 []) (zeros 65736)
    = Ret ([f], None)
    /\ ApplicationData f = zeros 65736
    /\ payloadLengthInt f = None
    /\ payloadLengthInt16 f = Some (len (zeros 65736) mod 65536)
    /\ payloadLengthInt64 f = None
    /\ PayloadLength f < len (zeros 65736).
Proof.
  apply (fragment_length_wraps (connection BinaryWebsocket 70000 [])
           (zeros 65736) 0).
  - vm_compute. split; discriminate.
  - vm_compute. discriminate.
  - vm_compute. split; [discriminate|reflexivity].
  - right. reflexivity.
Defined.

(** ** One frame, written and read *)



(** ** [umask] with a key of any length *)

Lemma umask_loop_returns (mask : list byte) (payload : list byte) :
  forall (i : nat) (umasked : list byte),
    (forall j : nat, (j < length payload)%nat ->
                     ((i + j) mod 4 < length mask)%nat) ->
    umask_loop mask i payload umasked
    = Ret (umasked ++ xor_stream mask i payload).
Proof.
  induction payload as [|b rest IH]; intros i umasked Hk.
  - cbn. rewrite app_nil_r. reflexivity.
  - cbn [umask_loop xor_stream].
    pose proof (Hk 0%nat ltac:(cbn; lia)) as H0.
    rewrite Nat.add_0_r in H0.
    destruct (nth_error mask (i mod 4)) as [m|] eqn:Hm.
    + rewrite IH.
      * rewrite <- app_assoc. cbn [app].
        rewrite (nth_error_nth _ _ x00 Hm). reflexivity.
      * intros j Hj. replace (S i + j)%nat with (i + S j)%nat by lia.
        apply Hk. cbn. lia.
    + apply nth_error_None in Hm. lia.
Qed.

Lemma umask_loop_panics (mask : list byte) (payload : list byte) :
  forall (i : nat) (umasked : list byte) (j : nat),
    (j < length payload)%nat ->
    (length mask <= (i + j) mod 4)%nat ->
    umask_loop mask i payload umasked = Panic IndexOutOfRange.
Proof.
  induction payload as [|b rest IH]; intros i umasked j Hj Hk.
  - cbn in Hj. lia.
  - cbn [umask_loop].
    destruct (nth_error mask (i mod 4)) as [m|] eqn:Hm; [|reflexivity].
    destruct j as [|j].
    + rewrite Nat.add_0_r in Hk.
      assert (nth_error mask (i mod 4) = None) as Hn
          by (apply nth_error_None; exact Hk).
      congruence.
    + apply (IH (S i) _ j); [cbn in Hj; lia|].
      replace (S i + j)%nat with (i + S j)%nat by lia. exact Hk.
Qed.

(** X9: [umask] for a key of any length.  When the key has fewer than
    four bytes and fewer bytes than the payload, [umask] panics with an
    index out of range; in every other case it returns, without error,
    as many zero bytes as the payload has, followed by the payload
    combined with the key: the result is twice as long as the payload,
    and the [Mask] flag of the frame plays no part. *)
Theorem umask_any_key (f : Frame) :
  if ((length (MaskingKey f) <? 4)%nat
      && (length (MaskingKey f) <? length (ApplicationData f))%nat)%bool
  then umask f = Panic IndexOutOfRange
  else umask f
       = Ret (repeat x00 (length (ApplicationData f))
                ++ xor_stream (MaskingKey f) 0 (ApplicationData f), None).
Proof.
  unfold umask.
  destruct (Nat.ltb_spec (length (MaskingKey f)) 4) as [H4|H4];
    [destruct (Nat.ltb_spec (length (MaskingKey f))
                            (length (ApplicationData f))) as [Hn|Hn]|];
    cbn [andb].
  - rewrite (umask_loop_panics _ _ 0%nat _ (length (MaskingKey f)));
      [reflexivity|exact Hn|].
    cbn [Nat.add]. rewrite Nat.mod_small by exact H4. lia.
  - rewrite umask_loop_returns; [reflexivity|].
    intros j Hj. cbn [Nat.add]. rewrite Nat.mod_small by lia. lia.
  - rewrite umask_loop_returns; [reflexivity|].
    intros j Hj. cbn [Nat.add].
    pose proof (Nat.mod_upper_bound j 4 ltac:(lia)). lia.
Qed.

(** ** What [readFrame] returns *)

Lemma copy_length (dst src : list byte) :
  length (fst (copy dst src)) = length dst.
Proof.
  unfold copy. cbn [fst]. rewrite length_app, length_firstn, length_skipn.
  lia.
Qed.

(** A [Read] returns a slice as long as the one it was given, and leaves
    no more bytes pending than there were. *)
Lemma bufio_Read_post (r r' : bufio.Reader) (p p' : list byte)
    (err : option error) :
  bufio.Read r p = ((p', err), r') ->
  length p' = length p
  /\ (length (bufio.pending r') <= length (bufio.pending r))%nat.
Proof.
  unfold bufio.Read. destruct p as [|b p].
  { intros H. injection H as <- <- <-. split; reflexivity. }
  destruct (bufio.pending r) as [|c pend] eqn:Hp.
  { intros H. injection H as <- <- <-. rewrite Hp. split; reflexivity. }
  pose proof (copy_length (b :: p) (c :: pend)) as Hc.
  destruct (copy (b :: p) (c :: pend)) as [q n].
  intros H. injection H as <- <- <-. split; [exact Hc|].
  cbn [bufio.pending]. rewrite length_skipn. lia.
Qed.

Lemma make_bytes_len (n : Z) (p : list byte) :
  make_bytes n = Ret p -> len p = n.
Proof.
  unfold make_bytes.
  destruct ((n <? 0) || (MaxInt <? n)) eqn:E; [discriminate|].
  apply orb_false_iff in E. destruct E as [E _]. apply Z.ltb_ge in E.
  intros H. injection H as <-. unfold len. rewrite repeat_length. lia.
Qed.

(** Whatever [readFrame] returns: a frame or an error, never both and
    never neither; the frame has the shape the decoder gives it, and at
    least its two header bytes have left the stream. *)
Lemma readFrame_post (ws ws' : Websocket) (fr : option Frame)
    (e : option error) :
  readFrame ws = Ret ((fr, e), ws') ->
  match fr with
  | None => e <> None
  | Some f =>
    e = None
    /\ (RSV1 f = false /\ RSV2 f = false /\ RSV3 f = false
        /\ ExtensionData f = [])
    /\ (if Mask f then length (MaskingKey f) = 4%nat else MaskingKey f = [])
    /\ len (ApplicationData f) = PayloadLength f
    /\ ((exists n, payloadLengthInt f = Some n /\ 0 <= n <= 125
                   /\ payloadLengthInt16 f = None
                   /\ payloadLengthInt64 f = None)
        \/ (exists n, payloadLengthInt16 f = Some n
                      /\ payloadLengthInt f = None
                      /\ payloadLengthInt64 f = None)
        \/ (exists n, payloadLengthInt64 f = Some n
                      /\ payloadLengthInt f = None
                      /\ payloadLengthInt16 f = None))
    /\ (length (bufio.pending (reader ws')) + 2
        <= length (bufio.pending (reader ws)))%nat
  end.
Proof.
  unfold readFrame, bufio.ReadByte.
  destruct (bufio.pending (reader ws)) as [|b1 pend1].
  { intros H. injection H as <- <- <-. discriminate. }
  destruct (opcode_of_bits_total b1) as [op ->].
  cbn [bufio.pending bufio.final].
  destruct pend1 as [|b2 pend2].
  { intros H. injection H as <- <- <-. discriminate. }
  set (f1 := set_Opcode _ op).
  set (f2 := if Z.land (byte_to_Z b2) 128 =? 128 then set_Mask f1 true else f1).
  set (r2 := {| bufio.pending := pend2; bufio.final := bufio.final (reader ws) |}).
  assert (Hf2 : (RSV1 f2 = false /\ RSV2 f2 = false /\ RSV3 f2 = false
                 /\ ExtensionData f2 = [])
                /\ MaskingKey f2 = []
                /\ payloadLengthInt f2 = None
                /\ payloadLengthInt16 f2 = None
                /\ payloadLengthInt64 f2 = None).
  { subst f2 f1. destruct (Z.land (byte_to_Z b2) 128 =? 128);
      destruct (Z.land (byte_to_Z b1) 128 =? 128); cbn; auto 10. }
  assert (Hr2 : (length (bufio.pending r2) <= length pend2)%nat)
    by (subst r2; cbn; lia).
  clearbody f1 f2 r2.
  set (post := match fr with None => _ | Some f => _ end).
  assert (Post : post =
    match fr with
    | None => e <> None
    | Some f =>
      e = None
      /\ (RSV1 f = false /\ RSV2 f = false /\ RSV3 f = false
          /\ ExtensionData f = [])
      /\ (if Mask f then length (MaskingKey f) = 4%nat else MaskingKey f = [])
      /\ len (ApplicationData f) = PayloadLength f
      /\ ((exists n, payloadLengthInt f = Some n /\ 0 <= n <= 125
                     /\ payloadLengthInt16 f = None
                     /\ payloadLengthInt64 f = None)
          \/ (exists n, payloadLengthInt16 f = Some n
                        /\ payloadLengthInt f = None
                        /\ payloadLengthInt64 f = None)
          \/ (exists n, payloadLengthInt64 f = Some n
                        /\ payloadLengthInt f = None
                        /\ payloadLengthInt16 f = None))
      /\ (length (bufio.pending (reader ws')) + 2
          <= length (b1 :: b2 :: pend2))%nat
    end) by reflexivity.
  clearbody post.
  assert (Tail : forall (f : Frame) (r : bufio.Reader),
    (RSV1 f = false /\ RSV2 f = false /\ RSV3 f = false
     /\ ExtensionData f = []) ->
    MaskingKey f = [] ->
    ((exists n, payloadLengthInt f = Some n /\ 0 <= n <= 125
                /\ payloadLengthInt16 f = None
                /\ payloadLengthInt64 f = None)
     \/ (exists n, payloadLengthInt16 f = Some n
                   /\ payloadLengthInt f = None
                   /\ payloadLengthInt64 f = None)
     \/ (exists n, payloadLengthInt64 f = Some n
                   /\ payloadLengthInt f = None
                   /\ payloadLengthInt16 f = None)) ->
    (length (bufio.pending r) <= length pend2)%nat ->
    match
      (if Mask f then
         let '((maskingKey, err), r0) := bufio.Read r (repeat x00 4) in
         match err with
         | Some _ => (inr BadRequest, r0)
         | None => (inl (set_MaskingKey f maskingKey), r0)
         end
       else (inl f, r))
    with
    | (inl f0, r0) =>
      payload <- make_bytes (PayloadLength f0) ;;
      let '((payload0, err), r1) := bufio.Read r0 payload in
      match err with
      | Some _ => Ret ((None, Some BadRequest), with_reader ws r1)
      | None =>
        Ret ((Some (set_ApplicationData f0 payload0), None), with_reader ws r1)
      end
    | (inr e0, r0) => Ret ((None, Some e0), with_reader ws r0)
    end = Ret ((fr, e), ws') ->
    post).
  { intros f r HR HK HL Hr.
    assert (Payload : forall (f0 : Frame) (r0 : bufio.Reader),
      (RSV1 f0 = false /\ RSV2 f0 = false /\ RSV3 f0 = false
       /\ ExtensionData f0 = []) ->
      (if Mask f0 then length (MaskingKey f0) = 4%nat
       else MaskingKey f0 = []) ->
      ((exists n, payloadLengthInt f0 = Some n /\ 0 <= n <= 125
                  /\ payloadLengthInt16 f0 = None
                  /\ payloadLengthInt64 f0 = None)
       \/ (exists n, payloadLengthInt16 f0 = Some n
                     /\ payloadLengthInt f0 = None
                     /\ payloadLengthInt64 f0 = None)
       \/ (exists n, payloadLengthInt64 f0 = Some n
                     /\ payloadLengthInt f0 = None
                     /\ payloadLengthInt16 f0 = None)) ->
      (length (bufio.pending r0) <= length pend2)%nat ->
      (payload <- make_bytes (PayloadLength f0) ;;
       let '((payload0, err), r1) := bufio.Read r0 payload in
       match err with
       | Some _ => Ret ((None, Some BadRequest), with_reader ws r1)
       | None =>
         Ret ((Some (set_ApplicationData f0 payload0), None),
              with_reader ws r1)
       end) = Ret ((fr, e), ws') ->
      post).
    { intros f0 r0 HR0 HK0 HL0 Hr0.
      destruct (make_bytes (PayloadLength f0)) as [payload| |] eqn:Hmk;
        cbn [bind]; try discriminate.
      apply make_bytes_len in Hmk.
      destruct (bufio.Read r0 payload) as [[payload0 [e1|]] r1] eqn:Hrd;
        intros H; injection H as <- <- <-; rewrite Post; [discriminate|].
      apply bufio_Read_post in Hrd. destruct Hrd as [Hlen Hpend].
      split; [reflexivity|]. split; [exact HR0|]. split; [exact HK0|].
      split; [|split; [exact HL0|cbn; lia]].
      change (PayloadLength (set_ApplicationData f0 payload0))
        with (PayloadLength f0).
      cbn [ApplicationData set_ApplicationData]. unfold len in *. lia. }
    destruct (Mask f) eqn:HM.
    - destruct (bufio.Read r (repeat x00 4)) as [[maskingKey [e1|]] r0] eqn:Hrd.
      + intros H; injection H as <- <- <-. rewrite Post. discriminate.
      + apply bufio_Read_post in Hrd. destruct Hrd as [Hlen Hpend].
        apply Payload.
        * exact HR.
        * cbn. rewrite HM. exact Hlen.
        * exact HL.
        * lia.
    - apply Payload; [exact HR|rewrite HM; exact HK|exact HL|exact Hr]. }
  destruct Hf2 as (HR & HK & HL1 & HL2 & HL3).
  destruct (length_tag_cases b2) as [H|[[H E]|[H E]]]; cbv zeta in *;
    rewrite H; try rewrite E; cbn [Z.eqb Pos.eqb].
  - apply Tail; [exact HR|exact HK| |exact Hr2].
    left. eexists. split; [reflexivity|].
    apply andb_true_iff in H. destruct H as [Ha Hb].
    apply Z.leb_le in Ha, Hb. cbn. auto.
  - destruct (bufio.Read r2 (repeat x00 2)) as [[length [e1|]] r] eqn:Hrd.
    + intros H'; injection H' as <- <- <-. rewrite Post. discriminate.
    + apply bufio_Read_post in Hrd. destruct Hrd as [_ Hpend].
      apply Tail; [exact HR|exact HK| |lia].
      right. left. eexists. cbn. auto.
  - destruct (bufio.Read r2 (repeat x00 8)) as [[length [e1|]] r] eqn:Hrd.
    + intros H'; injection H' as <- <- <-. rewrite Post. discriminate.
    + apply bufio_Read_post in Hrd. destruct Hrd as [_ Hpend].
      apply Tail; [exact HR|exact HK| |lia].
      right. right. eexists. cbn. auto.
Qed.

(** ** [readFrame] on the frames of a client *)

Lemma high_byte (b : byte) :
  (128 <=? byte_to_Z b) = true ->
  (Z.land (byte_to_Z b) 0x80 =? 0x80) = true
  /\ Z.land (byte_to_Z b) 0x7f = byte_to_Z b - 128.
Proof.
  destruct b; vm_compute; intros H; try discriminate H; split; reflexivity.
Qed.

Lemma mask_tag_byte (tag : Z) :
  0 <= tag <= 127 ->
  let h := byte_to_Z (byte_of_Z (0x80 + tag)) in
  (Z.land h 0x80 =? 0x80) = true /\ Z.land h 0x7f = tag.
Proof.
  intros Ht h.
  assert (Hh : h = 128 + tag).
  { subst h. rewrite byte_to_of_Z. apply Z.mod_small. lia. }
  destruct (high_byte (byte_of_Z (128 + tag))) as [H1 H2].
  { fold h. rewrite Hh. apply Z.leb_le. lia. }
  fold h in H1, H2. rewrite H1, H2. split; [reflexivity|lia].
Qed.

(** The header and the key of a masked frame with a small length; the
    read of the payload is what remains. *)
Lemma readFrame_masked_small (ws : Websocket) (b1 : byte) (n : Z)
    (key rest : list byte) (e : io_error) (op : Opcode) :
  length key = 4%nat -> 0 <= n <= 125 ->
  opcode_of_bits (Z.land (byte_to_Z b1) 0x0f) = Some op ->
  reader ws
  = {| bufio.pending := b1 :: byte_of_Z (0x80 + n) :: key ++ rest;
       bufio.final := e |} ->
  readFrame ws
  = let f :=
      set_MaskingKey
        (set_payloadLengthInt
           (set_Mask (set_Opcode (if finBit b1 then set_FIN zeroFrame true
                                  else zeroFrame) op) true) n) key in
    let '((payload, err), r) :=
      bufio.Read {| bufio.pending := rest; bufio.final := e |}
                 (repeat x00 (Z.to_nat n)) in
    match err with
    | Some _ => Ret ((None, Some BadRequest), with_reader ws r)
    | None => Ret ((Some (set_ApplicationData f payload), None),
                   with_reader ws r)
    end.
Proof.
  intros Hk Hn Hop Hr.
  destruct (mask_tag_byte n ltac:(lia)) as [Hmask Htag]. cbv zeta in *.
  unfold readFrame. rewrite Hr.
  cbn [bufio.ReadByte bufio.pending bufio.final].
  rewrite Hop, Hmask, Htag.
  replace ((0 <=? n) && (n <=? 125)) with true
    by (symmetry; apply andb_true_iff; split; apply Z.leb_le; lia).
  cbn [Mask set_Mask set_payloadLengthInt].
  pose proof (bufio_Read_payload 4 key rest e ltac:(lia)) as Hread.
  rewrite firstn_all2, skipn_all2 in Hread by lia.
  cbn [app] in Hread. rewrite Hread.
  assert (HPL : forall f k, PayloadLength
                  (set_MaskingKey (set_payloadLengthInt f n) k) = n).
  { intros f k. unfold PayloadLength, uint64. cbn.
    apply Z.mod_small. lia. }
  rewrite HPL. unfold make_bytes.
  replace ((n <? 0) || (MaxInt <? n)) with false
    by (symmetry; apply orb_false_iff; split; apply Z.ltb_ge;
        unfold MaxInt; lia).
  cbn [bind]. unfold finBit. reflexivity.
Qed.

(** A complete frame of a client. *)
Lemma readFrame_clientFrame (ws : Websocket) (b1 : byte)
    (key data tail : list byte) (e : io_error) :
  length key = 4%nat -> len data <= 125 ->
  reader ws
  = {| bufio.pending := clientFrame b1 key data ++ tail; bufio.final := e |} ->
  exists f,
    readFrame ws
    = Ret ((Some f, None),
           with_reader ws {| bufio.pending := tail; bufio.final := e |})
    /\ FIN f = finBit b1
    /\ MaskingKey f = key
    /\ ApplicationData f = data.
Proof.
  intros Hk Hn Hr.
  destruct (opcode_of_bits_total b1) as [op Hop].
  unfold clientFrame in Hr. cbn [app] in Hr. rewrite <- app_assoc in Hr.
  rewrite (readFrame_masked_small ws b1 (len data) key (data ++ tail) e op Hk
             ltac:(unfold len in *; lia) Hop Hr).
  cbv zeta. unfold len. rewrite Nat2Z.id.
  rewrite bufio_Read_payload by lia.
  rewrite firstn_all, skipn_all. cbn [app].
  eexists. split; [reflexivity|].
  destruct (finBit b1); cbn; auto.
Qed.

(** ** [Receive] on the frames of a client *)

Lemma Receive_loop_clientFrames
    (frs : list (byte * list byte * list byte)) :
  forall (ws : Websocket) (message : list byte)
         (last : byte * list byte * list byte) (tail : list byte)
         (e : io_error) (fuel : nat),
    Forall (fun fr => finBit (fst (fst fr)) = false /\ smallFrame fr) frs ->
    finBit (fst (fst last)) = true -> smallFrame last ->
    reader ws
    = {| bufio.pending := clientFrames (frs ++ [last]) ++ tail;
         bufio.final := e |} ->
    (length frs < fuel)%nat ->
    Receive_loop fuel ws message
    = Ret ((message ++ umaskedFrames (frs ++ [last]), None),
           with_reader ws {| bufio.pending := tail; bufio.final := e |}).
Proof.
  induction frs as [|fr frs IH];
    intros ws message last tail e fuel Hfrs Hfin Hlast Hr Hfuel;
    (destruct fuel as [|fuel]; [cbn in Hfuel; lia|]); cbn [Receive_loop].
  - destruct last as [[b1 key] data]. destruct Hlast as [Hk Hn].
    cbn [fst snd] in *.
    unfold clientFrames in Hr. cbn [app map concat fst snd] in Hr.
    rewrite app_nil_r in Hr.
    destruct (readFrame_clientFrame ws b1 key data tail e Hk Hn Hr)
      as (f & -> & HF & HK & HD).
    cbn [bind]. rewrite umask_key4 by (rewrite HK; exact Hk).
    cbn [bind]. rewrite HF, Hfin, HK, HD.
    unfold umaskedFrames. cbn [app map concat fst snd].
    rewrite app_nil_r. reflexivity.
  - destruct fr as [[b1 key] data].
    apply Forall_cons_iff in Hfrs. destruct Hfrs as [[Hnf [Hk Hn]] Hfrs].
    cbn [fst snd] in *.
    unfold clientFrames in Hr. cbn [app map concat fst snd] in Hr.
    fold (clientFrames (frs ++ [last])) in Hr.
    rewrite <- app_assoc in Hr.
    destruct (readFrame_clientFrame ws b1 key data _ e Hk Hn Hr)
      as (f & -> & HF & HK & HD).
    cbn [bind]. rewrite umask_key4 by (rewrite HK; exact Hk).
    cbn [bind]. rewrite HF, Hnf, HK, HD.
    rewrite (IH (with_reader ws _) _ last tail e fuel Hfrs Hfin Hlast eq_refl)
      by (cbn in Hfuel; lia).
    unfold umaskedFrames. cbn [app map concat fst snd].
    rewrite <- !app_assoc. reflexivity.
Qed.



(** ** [Receive] comes to an end *)

Lemma umask_loop_ends (mask : list byte) (payload : list byte) :
  forall (i : nat) (umasked : list byte),
    umask_loop mask i payload umasked <> OutOfFuel.
Proof.
  induction payload as [|b rest IH]; intros i umasked; cbn [umask_loop].
  - discriminate.
  - destruct (nth_error mask (i mod 4)); [apply IH|discriminate].
Qed.

Lemma umask_ends (f : Frame) : umask f <> OutOfFuel.
Proof.
  unfold umask.
  pose proof (umask_loop_ends (MaskingKey f) (ApplicationData f) 0
                (repeat x00 (length (ApplicationData f)))) as H.
  destruct (umask_loop _ _ _ _); cbn [bind]; congruence.
Qed.

Lemma umask_no_error (f : Frame) (out : list byte) (e : option error) :
  umask f = Ret (out, e) -> e = None.
Proof.
  unfold umask. destruct (umask_loop _ _ _ _); cbn [bind]; congruence.
Qed.

Lemma readFrame_ends (ws : Websocket) : readFrame ws <> OutOfFuel.
Proof.
  unfold readFrame, bufio.ReadByte.
  destruct (bufio.pending (reader ws)) as [|b1 pend1]; [discriminate|].
  destruct (opcode_of_bits_total b1) as [op ->].
  cbn [bufio.pending bufio.final].
  destruct pend1 as [|b2 pend2]; [discriminate|].
  set (f1 := set_Opcode _ op).
  set (f2 := if Z.land (byte_to_Z b2) 128 =? 128 then set_Mask f1 true else f1).
  set (r2 := {| bufio.pending := pend2; bufio.final := bufio.final (reader ws) |}).
  clearbody f1 f2 r2.
  assert (Tail : forall (f : Frame) (r : bufio.Reader),
    match
      (if Mask f then
         let '((maskingKey, err), r0) := bufio.Read r (repeat x00 4) in
         match err with
         | Some _ => (inr BadRequest, r0)
         | None => (inl (set_MaskingKey f maskingKey), r0)
         end
       else (inl f, r))
    with
    | (inl f0, r0) =>
      payload <- make_bytes (PayloadLength f0) ;;
      let '((payload0, err), r1) := bufio.Read r0 payload in
      match err with
      | Some _ => Ret ((None, Some BadRequest), with_reader ws r1)
      | None =>
        Ret ((Some (set_ApplicationData f0 payload0), None), with_reader ws r1)
      end
    | (inr e0, r0) => Ret ((None : option Frame, Some e0), with_reader ws r0)
    end <> OutOfFuel).
  { intros f r.
    assert (Payload : forall (f0 : Frame) (r0 : bufio.Reader),
      (payload <- make_bytes (PayloadLength f0) ;;
       let '((payload0, err), r1) := bufio.Read r0 payload in
       match err with
       | Some _ => Ret ((None, Some BadRequest), with_reader ws r1)
       | None =>
         Ret ((Some (set_ApplicationData f0 payload0), None),
              with_reader ws r1)
       end) <> OutOfFuel).
    { intros f0 r0. unfold make_bytes.
      destruct ((PayloadLength f0 <? 0) || (MaxInt <? PayloadLength f0));
        cbn [bind]; [discriminate|].
      destruct (bufio.Read r0 _) as [[payload0 [e1|]] r1]; discriminate. }
    destruct (Mask f); [|apply Payload].
    destruct (bufio.Read r (repeat x00 4)) as [[maskingKey [e1|]] r0];
      [discriminate|apply Payload]. }
  destruct (length_tag_cases b2) as [H|[[H E]|[H E]]]; cbv zeta in *;
    rewrite H; try rewrite E; cbn [Z.eqb Pos.eqb].
  - apply Tail.
  - destruct (bufio.Read r2 (repeat x00 2)) as [[length [e1|]] r];
      [discriminate|apply Tail].
  - destruct (bufio.Read r2 (repeat x00 8)) as [[length [e1|]] r];
      [discriminate|apply Tail].
Qed.

Lemma Receive_loop_ends (fuel : nat) :
  forall (ws : Websocket) (message : list byte),
    (length (bufio.pending (reader ws)) < 2 * fuel)%nat ->
    Receive_loop fuel ws message <> OutOfFuel.
Proof.
  induction fuel as [|fuel IH]; intros ws message Hfuel; [lia|].
  cbn [Receive_loop].
  pose proof (readFrame_ends ws) as Hends.
  destruct (readFrame ws) as [[[fr e] ws1]| |] eqn:Hrd; cbn [bind];
    [|discriminate|congruence].
  destruct e as [e|]; [discriminate|].
  apply readFrame_post in Hrd.
  destruct fr as [f|]; [|congruence].
  destruct Hrd as (_ & _ & _ & _ & _ & Hpend).
  pose proof (umask_ends f) as Hu.
  destruct (umask f) as [[umasked err]| |] eqn:Hum; cbn [bind];
    [|discriminate|congruence].
  apply umask_no_error in Hum. subst err.
  destruct (FIN f); [discriminate|].
  apply IH. lia.
Qed.

(** X11: [Receive] comes to an end on every stream that ends, finitely
    many bytes followed by the error of the connection: with fuel for
    one frame per two bytes that are pending the loop returns or panics,
    it does not run on.  Every frame that is read takes at least its two
    header bytes from the stream. *)
Theorem Receive_terminates (ws : Websocket) (fuel : nat) :
  (length (bufio.pending (reader ws)) < 2 * fuel)%nat ->
  (exists res, Receive fuel ws = Ret res)
  \/ (exists p, Receive fuel ws = Panic p).
Proof.
  intros Hfuel. pose proof (Receive_loop_ends fuel ws [] Hfuel) as H.
  unfold Receive. destruct (Receive_loop fuel ws []) as [res|p|].
  - left. exists res. reflexivity.
  - right. exists p. reflexivity.
  - congruence.
Qed.

Lemma Receive_terminates_witness :
  (exists res,
      Receive 2 (connection TextWebsocket 20 [x01; x00; x81]) = Ret res)
  \/ (exists p,
         Receive 2 (connection TextWebsocket 20 [x01; x00; x81]) = Panic p).
Proof.
  apply (Receive_terminates (connection TextWebsocket 20 [x01; x00; x81]) 2).
  cbn. lia.
Defined.

(** ** The frame [readFrame] returns *)

(** X10: [readFrame] returns a frame or an error, never both and never
    neither.  The frame it returns has no reserved bit set and no
    extension data; its key has four bytes when the mask bit was set
    and is [nil] otherwise; exactly one of its three length fields is
    set; and its data is as long as [PayloadLength] says, whether the
    stream held that many bytes or not. *)
Theorem readFrame_frame_shape (ws ws' : Websocket) (fr : option Frame)
    (e : option error) :
  readFrame ws = Ret ((fr, e), ws') ->
  (fr = None <-> e <> None)
  /\ forall f, fr = Some f ->
       RSV1 f = false /\ RSV2 f = false /\ RSV3 f = false
       /\ ExtensionData f = []
       /\ (if Mask f then length (MaskingKey f) = 4%nat
           else MaskingKey f = [])
       /\ len (ApplicationData f) = PayloadLength f
       /\ ((payloadLengthInt f <> None /\ payloadLengthInt16 f = None
            /\ payloadLengthInt64 f = None)
           \/ (payloadLengthInt f = None /\ payloadLengthInt16 f <> None
               /\ payloadLengthInt64 f = None)
           \/ (payloadLengthInt f = None /\ payloadLengthInt16 f = None
               /\ payloadLengthInt64 f <> None)).
Proof.
  intros H. apply readFrame_post in H. destruct fr as [f|].
  - destruct H as (-> & (R1 & R2 & R3 & HE) & HK & HL & HF & _). split.
    + split; [discriminate|]. intros C. exfalso. apply C. reflexivity.
    + intros g Hg. injection Hg as <-.
      repeat (split; [assumption|]).
      destruct HF as [(n & -> & _ & -> & ->)|[(n & -> & -> & ->)
                                            |(n & -> & -> & ->)]].
      * left. repeat split. discriminate.
      * right. left. repeat split. discriminate.
      * right. right. repeat split. discriminate.
  - split; [tauto|]. discriminate.
Qed.

Lemma readFrame_frame_shape_witness :
  (Some (set_ApplicationData
           (set_MaskingKey
              (set_payloadLengthInt
                 (set_Mask (set_Opcode (set_FIN zeroFrame true) TextFrame)
                           true) 2)
              [x01; x02; x03; x04])
           [x49; x00]) = None <-> @None error <> None)
  /\ forall f,
       Some (set_ApplicationData
               (set_MaskingKey
                  (set_payloadLengthInt
                     (set_Mask (set_Opcode (set_FIN zeroFrame true) TextFrame)
                               true) 2)
                  [x01; x02; x03; x04])
               [x49; x00]) = Some f ->
       RSV1 f = false /\ RSV2 f = false /\ RSV3 f = false
       /\ ExtensionData f = []
       /\ (if Mask f then length (MaskingKey f) = 4%nat
           else MaskingKey f = [])
       /\ len (ApplicationData f) = PayloadLength f
       /\ ((payloadLengthInt f <> None /\ payloadLengthInt16 f = None
            /\ payloadLengthInt64 f = None)
           \/ (payloadLengthInt f = None /\ payloadLengthInt16 f <> None
               /\ payloadLengthInt64 f = None)
           \/ (payloadLengthInt f = None /\ payloadLengthInt16 f = None
               /\ payloadLengthInt64 f <> None)).
Proof.
  apply (readFrame_frame_shape
           (connection TextWebsocket 20 [x81; x82; x01; x02; x03; x04; x49])
           (connection TextWebsocket 20 [])).
  reflexivity.
Defined.

(** ** Streams that end inside a frame *)

Lemma skipn_zeros (m n : nat) :
  skipn m (repeat x00 n) = repeat x00 (n - m).
Proof.
  revert n. induction m as [|m IH]; intros n.
  - rewrite Nat.sub_0_r. reflexivity.
  - destruct n as [|n]; [reflexivity|]. cbn [repeat skipn Nat.sub]. apply IH.
Qed.

(** A read that asks for more bytes than the stream holds: the bytes
    that are there, then the zero bytes of the slice, and no error. *)
Lemma bufio_Read_short (n : nat) (data : list byte) (e : io_error) :
  data <> [] -> (length data < n)%nat ->
  bufio.Read {| bufio.pending := data; bufio.final := e |} (repeat x00 n)
  = ((data ++ repeat x00 (n - length data), None),
     {| bufio.pending := []; bufio.final := e |}).
Proof.
  intros Hne Hn. destruct n as [|n]; [lia|].
  unfold bufio.Read. cbn [repeat bufio.pending bufio.final].
  destruct data as [|b l] eqn:E; [congruence|]. rewrite <- E in *.
  change (x00 :: repeat x00 n) with (repeat x00 (S n)).
  unfold copy. rewrite repeat_length.
  replace (Nat.min (S n) (length data)) with (length data) by lia.
  rewrite firstn_all, skipn_zeros, Nat2Z.id, skipn_all. reflexivity.
Qed.





(** ** The errors of [writeFrame] *)

(** The errors [writeFrame] returns: [InvalidOpcode] from the [default]
    branch of its [switch], before anything is written, or the error of
    the writer. *)
Lemma writeFrame_error_kinds (ws ws' : Websocket) (f : Frame) (e : error) :
  writeFrame ws f = Ret (Some e, ws') ->
  (e = InvalidOpcode /\ bits_of_opcode (FrameOpcode f) = None /\ ws' = ws)
  \/ (bits_of_opcode (FrameOpcode f) <> None
      /\ exists io, e = IO io /\ bufio.werr (writer ws) = Some io).
Proof.
  destruct (bufio.werr (writer ws)) as [io|] eqn:Hw.
  - unfold writeFrame.
    destruct (bits_of_opcode (FrameOpcode f)) as [bits|].
    + unfold bufio.WriteByte, bufio.Write. rewrite Hw.
      intros H. injection H as <- <-. right. split; [discriminate|].
      exists io. auto.
    + intros H. injection H as <- <-. left. auto.
  - destruct (bits_of_opcode (FrameOpcode f)) as [bits|] eqn:Hb.
    + rewrite writeFrame_wire by (exact Hw || congruence).
      destruct (_ || _); discriminate.
    + unfold writeFrame. rewrite Hb.
      intros H. injection H as <- <-. left. auto.
Qed.

Lemma bits_of_opcode_None (o : Opcode) :
  bits_of_opcode o = None
  <-> ~ In o [ContinuationFrame; TextFrame; BinaryFrame;
              ConnectionClose; Ping; Pong].
Proof.
  unfold bits_of_opcode. cbn [In].
  destruct (String.eqb_spec o ContinuationFrame);
    [split; [discriminate|intros H; exfalso; apply H; auto]|].
  destruct (String.eqb_spec o TextFrame);
    [split; [discriminate|intros H; exfalso; apply H; auto]|].
  destruct (String.eqb_spec o BinaryFrame);
    [split; [discriminate|intros H; exfalso; apply H; auto]|].
  destruct (String.eqb_spec o ConnectionClose);
    [split; [discriminate|intros H; exfalso; apply H; auto 6]|].
  destruct (String.eqb_spec o Ping);
    [split; [discriminate|intros H; exfalso; apply H; auto 7]|].
  destruct (String.eqb_spec o Pong);
    [split; [discriminate|intros H; exfalso; apply H; auto 8]|].
  split; [|reflexivity]. intros _ H.
  repeat (destruct H as [H|H]; [congruence|]). exact H.
Qed.

(** X15: of the package's own errors [writeFrame] returns only
    [InvalidOpcode]: it never returns [InvalidLength], whose branch no
    length reaches, and it returns [InvalidOpcode] exactly for a frame
    whose opcode is none of continuation, text, binary, close, ping and
    pong, and then before it has written anything. *)
Theorem writeFrame_package_errors (ws ws' : Websocket) (f : Frame) :
  writeFrame ws f <> Ret (Some InvalidLength, ws')
  /\ (writeFrame ws f = Ret (Some InvalidOpcode, ws')
      <-> ~ In (FrameOpcode f) [ContinuationFrame; TextFrame; BinaryFrame;
                                ConnectionClose; Ping; Pong]
          /\ ws' = ws).
Proof.
  split.
  - intros H. apply writeFrame_error_kinds in H.
    destruct H as [(H & _)|(_ & io & H & _)]; discriminate.
  - rewrite <- bits_of_opcode_None. split.
    + intros H. apply writeFrame_error_kinds in H.
      destruct H as [(_ & H & E)|(_ & io & H & _)]; [auto|discriminate].
    + intros [H ->]. unfold writeFrame. rewrite H. reflexivity.
Qed.

(** ** [Send] on a writer that has failed *)

(** X16: once a write to the connection has failed, [Send] of a payload
    that is not empty, on a connection of type text or binary with a
    limit of at least 1, returns the error of the writer at the first
    frame and leaves the connection as it was: nothing more is
    written. *)
Theorem Send_failed_writer (ws : Websocket) (data : list byte) (fuel : nat)
    (io : io_error) :
  bufio.werr (writer ws) = Some io ->
  1 <= framingLimit ws ->
  t ws = TextWebsocket \/ t ws = BinaryWebsocket ->
  data <> [] -> len data <= MaxInt -> (length data < fuel)%nat ->
  Send fuel ws data = Ret (Some (IO io), ws).
Proof.
  intros Hw Hl Ht Hne Hmax Hfuel.
  destruct (fragment_spec ws data fuel Hl Ht Hmax Hfuel)
    as (fs & Hrun & _ & _ & Hfs).
  specialize (Hfs Hne). destruct fs as [|f1 fs]; [congruence|].
  replace (0 <? len (f1 :: fs)) with true in Hrun
    by (symmetry; apply Z.ltb_lt; unfold len; cbn [length]; lia).
  destruct (update_first (fun f => set_FIN f true)
              (fun f => set_Opcode f (messageOpcode (t ws))) f1 fs)
    as (rest & Hupd & _).
  rewrite Hupd in Hrun. clear Hupd.
  unfold Send. rewrite Hrun. cbn [bind Send_loop]. unfold writeFrame.
  cbn [FrameOpcode set_Opcode].
  pose proof (messageOpcode_bits (t ws)) as Hop.
  destruct (bits_of_opcode (messageOpcode (t ws))) as [bits|]; [|congruence].
  unfold bufio.WriteByte, bufio.Write. rewrite Hw. cbn [bind].
  destruct ws as [r [wr we] ty lim]. reflexivity.
Qed.

Lemma Send_failed_writer_witness :
  Send 3
    (with_writer (connection TextWebsocket 20 [])
       {| bufio.written := []; bufio.werr := Some (ConnError "broken pipe") |})
    [x68; x69]
  = Ret (Some (IO (ConnError "broken pipe")),
         with_writer (connection TextWebsocket 20 [])
           {| bufio.written := [];
              bufio.werr := Some (ConnError "broken pipe") |}).
Proof.
  apply (Send_failed_writer
           (with_writer (connection TextWebsocket 20 [])
              {| bufio.written := [];
                 bufio.werr := Some (ConnError "broken pipe") |})
           [x68; x69] 3 (ConnError "broken pipe")).
  - reflexivity.
  - vm_compute. discriminate.
  - left. reflexivity.
  - discriminate.
  - vm_compute. discriminate.
  - cbn. lia.
Defined.

(** ** A chunk of 65536 bytes and more on the wire *)



(** ** The accept token for every key *)

Lemma string_of_list_byte_length (l : list byte) :
  String.length (string_of_list_byte l) = length l.
Proof.
  induction l as [|b l IH]; [reflexivity|].
  cbn [string_of_list_byte map string_of_list_ascii String.length length].
  f_equal. exact IH.
Qed.

Lemma sha1_Sum_length (data : list byte) : length (sha1.Sum data) = 20%nat.
Proof.
  unfold sha1.Sum.
  destruct (sha1.blocks _ _ _) as [[[[h0 h1] h2] h3] h4]. reflexivity.
Qed.

Lemma base64_encode_20 (l : list byte) :
  length l = 20%nat ->
  length (base64.encode l) = 28%nat
  /\ nth_error (base64.encode l) 27 = Some base64.padChar.
Proof.
  intros H.
  do 20 (destruct l as [|? l]; [discriminate H|]).
  destruct l; [|discriminate H].
  split; reflexivity.
Qed.

(** X18: whatever the key, the empty one included,
    [generateWebsocketAcceptToken] returns 28 characters, the last of
    which is the padding character [=]: the encoding of the 20 bytes of
    a SHA-1 digest. *)
Theorem generateWebsocketAcceptToken_length (secWebsocketKey : string) :
  String.length (generateWebsocketAcceptToken secWebsocketKey) = 28%nat
  /\ String.get 27 (generateWebsocketAcceptToken secWebsocketKey)
     = Some "="%char.
Proof.
  unfold generateWebsocketAcceptToken, base64.EncodeToString.
  destruct (base64_encode_20 _ (sha1_Sum_length
              (list_byte_of_string (secWebsocketKey ++ websocketGUID))))
    as [Hlen Hlast].
  rewrite string_of_list_byte_length. split; [exact Hlen|].
  set (l := base64.encode _) in *. clearbody l.
  do 28 (destruct l as [|? l]; [discriminate Hlen|]).
  cbn in Hlast. injection Hlast as ->. reflexivity.
Qed.

(** ** The ways [Open] fails *)

(** X19: [Open] returns a connection or an error, never both and never
    neither.  It fails in three cases only, whatever the request, the
    message type and [MaxBytes] are: the response writer cannot be
    hijacked ([HijackingNotSupported]), hijacking fails (the error of
    [Hijack]), or the connection refuses the handshake response (the
    error of the connection). *)
Theorem Open_failures (wso : WSOpener) (w : http.ResponseWriter)
    (r : http.Request) (ty : WebsocketType) :
  (forall e : error,
      Open wso w r ty = (None, Some e)
      <-> (w = http.NoHijacker /\ e = HijackingNotSupported)
          \/ (exists err, w = http.Hijacker (inr err) /\ e = IO err)
          \/ (exists conn err,
                 w = http.Hijacker (inl conn)
                 /\ http.refused conn = Some err /\ e = IO err))
  /\ ((exists ws, Open wso w r ty = (Some ws, None))
      \/ (exists e, Open wso w r ty = (None, Some e))).
Proof.
  destruct w as [|[conn|err]].
  - split.
    + intros e. cbn. split.
      * intros H. injection H as <-. left. auto.
      * intros [[_ ->]|[(err & H & _)|(conn & err & H & _)]];
          [reflexivity|discriminate|discriminate].
    + right. eexists. reflexivity.
  - destruct (http.refused conn) as [io|] eqn:Href.
    + assert (HO : Open wso (http.Hijacker (inl conn)) r ty
                   = (None, Some (IO io))).
      { unfold Open, handshake, http.Response_Write, bufio.Write.
        cbn [writer bufio.werr]. rewrite Href. reflexivity. }
      rewrite HO. split.
      * intros e. split.
        -- intros H. injection H as <-. right. right.
           exists conn, io. auto.
        -- intros [[H _]|[(err & H & _)|(conn' & err & H & Hr & ->)]];
             [discriminate|discriminate|].
           injection H as <-. congruence.
      * right. eexists. reflexivity.
    + destruct (Open_succeeds wso conn r ty Href) as (ws & HO & _).
      rewrite HO. split.
      * intros e. split; [discriminate|].
        intros [[H _]|[(err & H & _)|(conn' & err & H & Hr & _)]];
          [discriminate|discriminate|].
        injection H as <-. congruence.
      * left. eexists. reflexivity.
  - split.
    + intros e. cbn. split.
      * intros H. injection H as <-. right. left. eexists. auto.
      * intros [[H _]|[(err' & H & ->)|(conn & err' & H & _)]];
          [discriminate| |discriminate].
        injection H as <-. reflexivity.
    + right. eexists. reflexivity.
Qed.

(** ** A length that no slice can have *)

Lemma testbit_lower_bound (x n : Z) :
  0 <= n -> 0 <= x -> Z.testbit x n = true -> 2 ^ n <= x.
Proof.
  intros Hn Hx Hb. apply Z.testbit_true in Hb; [|exact Hn].
  destruct (Z.lt_ge_cases x (2 ^ n)) as [Hlt|Hge]; [|lia].
  rewrite Z.div_small in Hb by lia. discriminate Hb.
Qed.

Lemma high_bit (b : byte) :
  (128 <=? byte_to_Z b) = true -> Z.testbit (byte_to_Z b) 7 = true.
Proof.
  destruct b; vm_compute; intros H; try discriminate H; reflexivity.
Qed.

(** A 64-bit length whose first byte has its high bit set is more than
    an [int] holds. *)
Lemma Uint64_high (l : list byte) :
  128 <= byte_to_Z (nth 0 l x00) -> MaxInt < uint64 (binary.Uint64 l).
Proof.
  intros Hb. unfold uint64, MaxInt.
  assert (H63 : Z.testbit (binary.Uint64 l mod 2 ^ 64) 63 = true).
  { rewrite Z.mod_pow2_bits_low by lia. unfold binary.Uint64.
    rewrite !Z.lor_spec, !Z.shiftl_spec by lia.
    change (63 - 56) with 7.
    rewrite high_bit by (apply Z.leb_le; exact Hb).
    rewrite !orb_true_r. reflexivity. }
  apply testbit_lower_bound in H63; [lia|lia|].
  apply Z.mod_pos_bound. lia.
Qed.

Lemma bufio_Read_some (r : bufio.Reader) (p : list byte) :
  bufio.pending r <> [] ->
  exists p' r', bufio.Read r p = ((p', None), r').
Proof.
  intros Hne. unfold bufio.Read. destruct p as [|b p]; [eauto|].
  destruct (bufio.pending r) as [|c pend]; [congruence|].
  destruct (copy _ _). eauto.
Qed.

(** X22: a header that announces a 64-bit length whose first byte has
    its high bit set, a length of at least [2^63]: once the eight bytes
    of the length are read (and, in a masked frame, at least one byte
    of the key is there), [readFrame] gives the length to [make]
    unchecked and panics, and so does [Receive].  Ten bytes from the
    client are enough. *)
Theorem readFrame_length_beyond_int (ws : Websocket) (b1 b2 : byte)
    (l8 rest : list byte) (e : io_error) (fuel : nat) :
  b2 = x7f \/ (b2 = xff /\ rest <> []) ->
  length l8 = 8%nat -> 128 <= byte_to_Z (nth 0 l8 x00) ->
  reader ws
  = {| bufio.pending := b1 :: b2 :: l8 ++ rest; bufio.final := e |} ->
  readFrame ws = Panic MakeSliceLenOutOfRange
  /\ Receive (S fuel) ws = Panic MakeSliceLenOutOfRange.
Proof.
  intros Hb2 Hl8 Hhigh Hr.
  assert (Hread : readFrame ws = Panic MakeSliceLenOutOfRange).
  { unfold readFrame. rewrite Hr.
    cbn [bufio.ReadByte bufio.pending bufio.final].
    destruct (opcode_of_bits_total b1) as [op ->].
    pose proof (bufio_Read_payload 8 l8 rest e ltac:(lia)) as Hlen.
    rewrite firstn_all2, skipn_all2 in Hlen by lia. cbn [app] in Hlen.
    assert (Hmake : forall f k,
      payloadLengthInt f = None -> payloadLengthInt16 f = None ->
      make_bytes (PayloadLength
                    (set_MaskingKey
                       (set_payloadLengthInt64 f (binary.Uint64 l8)) k))
      = Panic MakeSliceLenOutOfRange).
    { intros f k H7 H16. unfold make_bytes, PayloadLength.
      cbn [payloadLengthInt payloadLengthInt16 payloadLengthInt64
           set_MaskingKey set_payloadLengthInt64].
      rewrite H7, H16.
      pose proof (Uint64_high l8 Hhigh) as H.
      apply Z.ltb_lt in H. rewrite H, orb_true_r. reflexivity. }
    assert (Hmake' : forall f,
      payloadLengthInt f = None -> payloadLengthInt16 f = None ->
      make_bytes (PayloadLength
                    (set_payloadLengthInt64 f (binary.Uint64 l8)))
      = Panic MakeSliceLenOutOfRange).
    { intros f H7 H16. unfold make_bytes, PayloadLength.
      cbn [payloadLengthInt payloadLengthInt16 payloadLengthInt64
           set_payloadLengthInt64].
      rewrite H7, H16.
      pose proof (Uint64_high l8 Hhigh) as H.
      apply Z.ltb_lt in H. rewrite H, orb_true_r. reflexivity. }
    set (f1 := set_Opcode _ op).
    assert (Hf1 : Mask f1 = false /\ payloadLengthInt f1 = None
                  /\ payloadLengthInt16 f1 = None).
    { subst f1. destruct (Z.land (byte_to_Z b1) 128 =? 128); cbn; auto. }
    destruct Hf1 as (HM & H7 & H16). clearbody f1.
    destruct Hb2 as [->|[-> Hrest]].
    - change (Z.land (byte_to_Z x7f) 128 =? 128) with false.
      change (Z.land (byte_to_Z x7f) 127) with 127.
      cbn [Z.leb Z.eqb Z.compare Pos.compare Pos.compare_cont Pos.eqb andb].
      rewrite Hlen. cbn [Mask set_payloadLengthInt64]. rewrite HM.
      rewrite Hmake' by assumption. reflexivity.
    - change (Z.land (byte_to_Z xff) 128 =? 128) with true.
      change (Z.land (byte_to_Z xff) 127) with 127.
      cbn [Z.leb Z.eqb Z.compare Pos.compare Pos.compare_cont Pos.eqb andb].
      rewrite Hlen. cbn [Mask set_Mask set_payloadLengthInt64].
      destruct (bufio_Read_some {| bufio.pending := rest; bufio.final := e |}
                  (repeat x00 4) Hrest) as (key & r' & ->).
      rewrite Hmake by assumption. reflexivity. }
  split; [exact Hread|].
  unfold Receive. cbn [Receive_loop]. rewrite Hread. reflexivity.
Qed.

Lemma readFrame_length_beyond_int_witness :
  readFrame (connection BinaryWebsocket 20
               ([x82; xff] ++ [x80; x00; x00; x00; x00; x00; x00; x00]
                  ++ [x01]))
  = Panic MakeSliceLenOutOfRange
  /\ Receive 1 (connection BinaryWebsocket 20
                  ([x82; xff] ++ [x80; x00; x00; x00; x00; x00; x00; x00]
                     ++ [x01]))
     = Panic MakeSliceLenOutOfRange.
Proof.
  apply (readFrame_length_beyond_int
           (connection BinaryWebsocket 20
              ([x82; xff] ++ [x80; x00; x00; x00; x00; x00; x00; x00]
                 ++ [x01]))
           x82 xff [x80; x00; x00; x00; x00; x00; x00; x00] [x01] EOF 0).
  - right. split; [reflexivity|discriminate].
  - reflexivity.
  - vm_compute. discriminate.
  - reflexivity.
Defined.
